(** * gsmfunc.cc: function descriptors and pending calls of the GSM

    A shallow embedding of [src/sources/gsmfunc.cc]: the two classes
    [FuncDescObj] (the signature of a native function) and
    [CallFunctionObject] (a call whose argument slots are being filled),
    followed by the properties of the registration and invocation protocol.

    Conventions of the embedding:
    - [int] is [Z]; the only arithmetic of the file is [current_param_index++]
      under the guard [current_param_index < NumParams()], which cannot leave
      the range of [int];
    - [gString] is [string];
    - a [Portion*] is an [option positive]: [None] is the null pointer, and
      [Some l] the address [l] of a [Portion] of the store;
    - a [FuncDescObj*] is the address of a descriptor of the store: a
      [CallFunctionObject] borrows its descriptor, it does not copy it;
    - a C++ array is a [list] read and written by index; an access out of
      range is undefined behaviour;
    - a loop [for( i = 0; i < n; i++ )] is a recursion on the number of
      iterations that are left, [n - i]: its test holds exactly when one is
      left; a [break] or a [return] in its body ends the recursion;
    - [assert] follows the build: it aborts in a build without [NDEBUG] and
      is compiled out in a build with it. *)

From Stdlib Require Import ZArith List String Ascii Bool Lia.
From stdpp Require Import base option list gmap strings.

Local Open Scope Z_scope.

(** ** Values *)

Abbreviation gString := string (only parsing).

(** Modelled from the spec: [portion.h] is missing.  [PortionType] holds the
    kinds that [gsmfunc.cc] names: the error kind, the three concrete numeric
    kinds, and the numeric meta-kind [porNUMERICAL] (any of the three). *)
Inductive PortionType : Set :=
| porERROR
| porDOUBLE
| porINTEGER
| porRATIONAL
| porNUMERICAL.

(** Modelled from the spec: the [Portion] class is missing.  A value is an
    opaque unit with a runtime type tag; [numerical_Portion t v] is the
    numeric value [v] of kind [t]. *)
Inductive Portion : Set :=
| numerical_Portion (t : PortionType) (v : Z).

Abbreviation Portion_ptr := (option positive) (only parsing).

(** Modelled from the spec: the macro [NO_DEFAULT_VALUE] of the missing
    [gsmfunc.h] is the absent default, the null pointer. *)
Definition NO_DEFAULT_VALUE : Portion_ptr := None.

(** ** Descriptors and calls as data *)

(** Modelled from the spec: [struct ParamInfoType] is declared in the missing
    [gsmfunc.h]; its three members are the ones [gsmfunc.cc] reads and writes
    ([Type] is a keyword here, hence [Type_]). *)
Record ParamInfoType : Set := Build_ParamInfoType {
  Name : gString;
  Type_ : PortionType;
  DefaultValue : Portion_ptr
}.

(** Modelled from the spec: a slot of a new [ParamInfoType] array is an empty
    parameter specification: empty name, no default. *)
Definition ParamInfoType_empty : ParamInfoType :=
  {| Name := EmptyString; Type_ := porERROR; DefaultValue := NO_DEFAULT_VALUE |}.

(** An entry point [Portion* (*)(Portion**)]: it receives the argument array
    and may read, create and delete [Portion]s. *)
Definition entry_point : Type :=
  list Portion_ptr -> gmap positive Portion -> Portion_ptr * gmap positive Portion.

Record FuncDescObj : Type := Build_FuncDescObj {
  function : entry_point;
  num_of_params : Z;
  ParamInfo : list ParamInfoType
}.

Record CallFunctionObject : Set := Build_CallFunctionObject {
  func_name : gString;
  func_desc_obj : positive;
  param : list Portion_ptr;
  current_param_index : Z
}.

(** ** The store *)

(** [invocations] is a ghost field: every call of an entry point appends the
    sequence of argument values it was called with. *)
Record world : Type := World {
  portions : gmap positive Portion;
  funcs : gmap positive FuncDescObj;
  gerr : string;
  invocations : list (list (option Portion))
}.

Definition set_portions (h : gmap positive Portion) (w : world) : world :=
  {| portions := h; funcs := funcs w; gerr := gerr w;
     invocations := invocations w |}.

Definition set_funcs (fs : gmap positive FuncDescObj) (w : world) : world :=
  {| portions := portions w; funcs := fs; gerr := gerr w;
     invocations := invocations w |}.

Definition set_gerr (s : string) (w : world) : world :=
  {| portions := portions w; funcs := funcs w; gerr := s;
     invocations := invocations w |}.

Definition set_invocations (t : list (list (option Portion))) (w : world) : world :=
  {| portions := portions w; funcs := funcs w; gerr := gerr w;
     invocations := t |}.

Definition empty_world : world :=
  {| portions := ∅; funcs := ∅; gerr := EmptyString; invocations := [] |}.

(** The value behind a pointer; nothing behind the null pointer or behind a
    pointer to a deleted [Portion]. *)
Definition deref (h : gmap positive Portion) (p : Portion_ptr) : option Portion :=
  match p with
  | Some l => h !! l
  | None => None
  end.

(** ** The monad of the embedding *)

Inductive outcome (A : Type) : Type :=
| Returns (a : A) (w : world)   (* normal return *)
| Aborted (w : world)           (* a failed [assert]: the process stops in [w] *)
| Undefined.                    (* undefined behaviour *)
Arguments Returns {A} a w.
Arguments Aborted {A} w.
Arguments Undefined {A}.

Definition M (A : Type) : Type := world -> outcome A.

#[export] Instance M_ret : MRet M := fun A a w => Returns a w.

#[export] Instance M_bind : MBind M := fun A B k m w =>
  match m w with
  | Returns a w' => k a w'
  | Aborted w' => Aborted w'
  | Undefined => Undefined
  end.

Definition undefined {A : Type} : M A := fun _ => Undefined.

(** [gerr << s] *)
Definition gerr_put (s : string) : M unit :=
  fun w => Returns () (set_gerr (gerr w +:+ s) w).

(** [a[i]] as an rvalue *)
Definition array_get {A : Type} (a : list A) (i : Z) : M A :=
  fun w =>
    if 0 <=? i then
      match a !! Z.to_nat i with
      | Some x => Returns x w
      | None => Undefined
      end
    else Undefined.

(** [a[i] = x] *)
Definition array_set {A : Type} (a : list A) (i : Z) (x : A) : M (list A) :=
  fun w =>
    if (0 <=? i) && (i <? Z.of_nat (length a))
    then Returns (<[Z.to_nat i := x]> a) w
    else Undefined.

(** Reading the descriptor behind a [FuncDescObj*] *)
Definition load_FuncDescObj (this : positive) : M FuncDescObj :=
  fun w =>
    match funcs w !! this with
    | Some fd => Returns fd w
    | None => Undefined
    end.

Definition store_FuncDescObj (this : positive) (fd : FuncDescObj) : M unit :=
  fun w => Returns () (set_funcs (<[this := fd]> (funcs w)) w).

(** A new [FuncDescObj] object, at a free address *)
Definition new_FuncDescObj (fd : FuncDescObj) : M positive :=
  fun w =>
    let this := fresh (dom (funcs w)) in
    Returns this (set_funcs (<[this := fd]> (funcs w)) w).

(** [f( param )] for an entry point [f]: the call is recorded in
    [invocations], with the values behind the arguments when it is made. *)
Definition call_entry_point (f : entry_point) (param : list Portion_ptr)
    : M Portion_ptr :=
  fun w =>
    let '(result, h) := f param (portions w) in
    Returns result
      (set_invocations (invocations w ++ [map (deref (portions w)) param])
         (set_portions h w)).

(** The end of the life of a [FuncDescObj] object *)
Definition delete_FuncDescObj (this : positive) : M unit :=
  fun w => Returns () (set_funcs (delete this (funcs w)) w).

(** [new numerical_Portion<T>( v )] *)
Definition Portion_new (v : Portion) : M Portion_ptr :=
  fun w =>
    let l := fresh (dom (portions w)) in
    Returns (Some l) (set_portions (<[l := v]> (portions w)) w).

(** Modelled from the spec: [Portion::Copy] is missing; it is the explicit
    deep copy of a value, producing an independent instance: a new [Portion]
    with the contents of the copied one. *)
Definition Portion_Copy (p : Portion_ptr) : M Portion_ptr :=
  fun w =>
    match deref (portions w) p with
    | Some v => Portion_new v w
    | None => Undefined
    end.

(** [delete p]: nothing for the null pointer; deleting what is not there is
    undefined. *)
Definition Portion_delete (p : Portion_ptr) : M unit :=
  fun w =>
    match p with
    | Some l =>
        match portions w !! l with
        | Some _ => Returns () (set_portions (delete l (portions w)) w)
        | None => Undefined
        end
    | None => Returns () w
    end.

(** ** Diagnostics *)

Definition dq : string := String (ascii_of_nat 34) EmptyString.
Definition nl : string := String (ascii_of_nat 10) EmptyString.

(** The text of [SetParamInfo] for a repeated formal name
    (the spec's [DuplicateParameterName]). *)
Definition DuplicateParameterName (name : gString) : string :=
  "FuncDescObj Error: multiple parameters of a functions were" +:+ nl +:+
  "                   declared with the same formal name " +:+ dq +:+
  name +:+ dq +:+ nl +:+
  "                   during initialization" +:+ nl.

(** The text of [GetCurrParamType] and [SetCurrParam] for a cursor past the
    last parameter (the spec's [TooManyParameters]). *)
Definition TooManyParameters (func_name : gString) : string :=
  "CallFunctionObject Error: too many parameters specified for" +:+ nl +:+
  "                          function " +:+ dq +:+ func_name +:+ dq +:+ nl.

(** The text of [CallFunction] for an empty slot
    (the spec's [MissingRequiredParameter]). *)
Definition MissingRequiredParameter (param_name func_name : gString) : string :=
  "GSM Error: required parameter " +:+ dq +:+ param_name +:+ dq +:+
  " not found while executing" +:+ nl +:+
  "           CallFunction() on function " +:+ dq +:+ func_name +:+ dq +:+ nl.

(** [assert( e )]; [NDEBUG = true] is a build with [-DNDEBUG]. *)
Definition c_assert (NDEBUG : bool) (e : bool) : M unit :=
  if NDEBUG then mret ()
  else if e then mret () else fun w => Aborted w.

(** ** Function descriptor objects *)

Module FuncDescObj.
Section Build.

Variable NDEBUG : bool.

(** [FuncDescObj::FuncDescObj( funcname, size )]; [new ParamInfoType[ n ]]
    with a negative [n] is undefined. *)
Definition ctor (funcname : entry_point) (size : Z) : M positive :=
  c_assert NDEBUG (0 <=? size);;
  if size <? 0 then undefined
  else
    new_FuncDescObj
      {| function := funcname;
         num_of_params := size;
         ParamInfo := replicate (Z.to_nat size) ParamInfoType_empty |}.

(** The loop of the destructor from index [i], with [n] iterations to go;
    [delete] of a null pointer does nothing. *)
Fixpoint dtor_loop (fd : FuncDescObj) (n : nat) (i : Z) : M unit :=
  match n with
  | O => mret ()
  | S n' =>
      info ← array_get (ParamInfo fd) i;
      Portion_delete (DefaultValue info);;
      dtor_loop fd n' (i + 1)
  end.

(** [FuncDescObj::~FuncDescObj()] *)
Definition dtor (this : positive) : M unit :=
  fd ← load_FuncDescObj this;
  dtor_loop fd (Z.to_nat (num_of_params fd)) 0;;
  delete_FuncDescObj this.

(** [FuncDescObj::CallFunction]: [return function( param );] *)
Definition CallFunction (this : positive) (param : list Portion_ptr) : M Portion_ptr :=
  fd ← load_FuncDescObj this;
  call_entry_point (function fd) param.

Definition NumParams (this : positive) : M Z :=
  fd ← load_FuncDescObj this;
  mret (num_of_params fd).

Definition ParamName (this : positive) (index : Z) : M gString :=
  fd ← load_FuncDescObj this;
  c_assert NDEBUG ((0 <=? index) && (index <? num_of_params fd));;
  info ← array_get (ParamInfo fd) index;
  mret (Name info).

Definition ParamType (this : positive) (index : Z) : M PortionType :=
  fd ← load_FuncDescObj this;
  c_assert NDEBUG ((0 <=? index) && (index <? num_of_params fd));;
  info ← array_get (ParamInfo fd) index;
  mret (Type_ info).

Definition ParamDefaultValue (this : positive) (index : Z) : M Portion_ptr :=
  fd ← load_FuncDescObj this;
  c_assert NDEBUG ((0 <=? index) && (index <? num_of_params fd));;
  info ← array_get (ParamInfo fd) index;
  if decide (DefaultValue info = NO_DEFAULT_VALUE)
  then mret None
  else Portion_Copy (DefaultValue info).

(** The loop of [FindParamName] from index [i], with [n] iterations to go
    and [result] still [-1]. *)
Fixpoint FindParamName_loop (fd : FuncDescObj) (name : gString)
    (n : nat) (i : Z) : M Z :=
  match n with
  | O => mret (-1)
  | S n' =>
      info ← array_get (ParamInfo fd) i;
      if String.eqb (Name info) name then mret i
      else FindParamName_loop fd name n' (i + 1)
  end.

Definition FindParamName (this : positive) (name : gString) : M Z :=
  fd ← load_FuncDescObj this;
  FindParamName_loop fd name (Z.to_nat (num_of_params fd)) 0.

(** The loop of [SetParamInfo] from index [i], with [n] iterations to go and
    [repeated_variable_declaration] still false. *)
Fixpoint SetParamInfo_loop (fd : FuncDescObj) (name : gString)
    (n : nat) (i : Z) : M bool :=
  match n with
  | O => mret false
  | S n' =>
      info ← array_get (ParamInfo fd) i;
      if String.eqb (Name info) name then mret true
      else SetParamInfo_loop fd name n' (i + 1)
  end.

Definition SetParamInfo (this : positive) (index : Z) (name : gString)
    (type : PortionType) (default_value : Portion_ptr) : M unit :=
  fd ← load_FuncDescObj this;
  c_assert NDEBUG ((0 <=? index) && (index <? num_of_params fd));;
  repeated_variable_declaration ←
    SetParamInfo_loop fd name (Z.to_nat (num_of_params fd)) 0;
  (if NDEBUG then mret ()
   else
     (if repeated_variable_declaration
      then gerr_put (DuplicateParameterName name)
      else mret ());;
     c_assert NDEBUG (negb repeated_variable_declaration));;
  infos ← array_set (ParamInfo fd) index
            {| Name := name; Type_ := type; DefaultValue := default_value |};
  store_FuncDescObj this
    {| function := function fd;
       num_of_params := num_of_params fd;
       ParamInfo := infos |}.

End Build.
End FuncDescObj.

(** ** CallFunctionObject *)

Module CallFunctionObject.
Section Build.

Variable NDEBUG : bool.

(** The loop of the constructor from index [i], with [n] iterations to go. *)
Fixpoint ctor_loop (func : positive) (n : nat) (i : Z)
    (param : list Portion_ptr) : M (list Portion_ptr) :=
  match n with
  | O => mret param
  | S n' =>
      d ← FuncDescObj.ParamDefaultValue NDEBUG func i;
      param' ← array_set param i d;
      ctor_loop func n' (i + 1) param'
  end.

(** [CallFunctionObject::CallFunctionObject( name, func )]; the new array
    [param] is written at every index before it is read, so that its initial
    contents do not matter: they are null pointers here. *)
Definition ctor (name : gString) (func : positive) : M CallFunctionObject :=
  n ← FuncDescObj.NumParams func;
  (if n <? 0 then undefined else mret ());;
  param ← ctor_loop func (Z.to_nat n) 0 (replicate (Z.to_nat n) None);
  mret {| func_name := name;
          func_desc_obj := func;
          param := param;
          current_param_index := 0 |}.

Definition GetCurrParamType (this : CallFunctionObject) : M PortionType :=
  n ← FuncDescObj.NumParams (func_desc_obj this);
  if current_param_index this <? n
  then FuncDescObj.ParamType NDEBUG (func_desc_obj this) (current_param_index this)
  else
    gerr_put (TooManyParameters (func_name this));;
    mret porERROR.

(** [SetCurrParam] returns the object as it has become. *)
Definition SetCurrParam (this : CallFunctionObject) (new_param : Portion_ptr)
    : M CallFunctionObject :=
  n ← FuncDescObj.NumParams (func_desc_obj this);
  if current_param_index this <? n
  then
    old ← array_get (param this) (current_param_index this);
    (if decide (old ≠ None) then Portion_delete old else mret ());;
    param' ← array_set (param this) (current_param_index this) new_param;
    mret {| func_name := func_name this;
            func_desc_obj := func_desc_obj this;
            param := param';
            current_param_index := current_param_index this + 1 |}
  else
    gerr_put (TooManyParameters (func_name this));;
    mret this.

Definition SetCurrParamIndex (this : CallFunctionObject) (index : Z)
    : CallFunctionObject :=
  {| func_name := func_name this;
     func_desc_obj := func_desc_obj this;
     param := param this;
     current_param_index := index |}.

Definition GetCurrParamIndex (this : CallFunctionObject) : Z :=
  current_param_index this.

Definition FindParamName (this : CallFunctionObject) (name : gString) : M Z :=
  FuncDescObj.FindParamName (func_desc_obj this) name.

Definition FuncName (this : CallFunctionObject) : gString :=
  func_name this.

(** The loop of [CallFunction] from index [i], with [n] iterations to go:
    [false] when it left the function through [return 0], [true] when it ran
    to its end. *)
Fixpoint CallFunction_loop (this : CallFunctionObject) (n : nat) (i : Z) : M bool :=
  match n with
  | O => mret true
  | S n' =>
      p ← array_get (param this) i;
      if decide (p = None)
      then
        name ← FuncDescObj.ParamName NDEBUG (func_desc_obj this) i;
        gerr_put (MissingRequiredParameter name (func_name this));;
        mret false
      else
        c_assert NDEBUG (bool_decide (p ≠ None));;
        CallFunction_loop this n' (i + 1)
  end.

Definition CallFunction (this : CallFunctionObject) : M Portion_ptr :=
  n ← FuncDescObj.NumParams (func_desc_obj this);
  completed ← CallFunction_loop this (Z.to_nat n) 0;
  if completed : bool
  then FuncDescObj.CallFunction (func_desc_obj this) (param this)
  else mret None.

End Build.
End CallFunctionObject.

(** ** Invariants of the two classes *)

(** A pointer that may be dereferenced or deleted: null, or the address of
    a [Portion] of the store. *)
Definition valid_ptr (h : gmap positive Portion) (p : Portion_ptr) : Prop :=
  match p with
  | Some l => is_Some (h !! l)
  | None => True
  end.

(** What the constructor of [FuncDescObj] establishes and [SetParamInfo]
    keeps: [ParamInfo] has [num_of_params] slots; the descriptor owns its
    defaults. *)
Definition FuncDescObj_inv (w : world) (this : positive) (fd : FuncDescObj) : Prop :=
  funcs w !! this = Some fd ∧
  num_of_params fd = Z.of_nat (length (ParamInfo fd)) ∧
  Forall (fun info => valid_ptr (portions w) (DefaultValue info)) (ParamInfo fd).

(** What the constructor of [CallFunctionObject] establishes and
    [SetCurrParam] keeps, for values given by their owner: one slot per
    parameter of the borrowed descriptor, and every non-empty slot is the
    address of a [Portion].  The cursor is not constrained:
    [SetCurrParamIndex] accepts any [int]. *)
Definition CallFunctionObject_inv (w : world) (this : CallFunctionObject)
    (fd : FuncDescObj) : Prop :=
  FuncDescObj_inv w (func_desc_obj this) fd ∧
  length (param this) = length (ParamInfo fd) ∧
  Forall (valid_ptr (portions w)) (param this).

(** ** Examples of objects *)

(** A stub entry point: it returns its first argument and keeps the store. *)
Definition first_argument : entry_point :=
  fun args h => (default None (head args), h).

Definition sig_xyz : FuncDescObj :=
  {| function := first_argument;
     num_of_params := 3;
     ParamInfo := [ {| Name := "x"; Type_ := porDOUBLE; DefaultValue := None |};
                    {| Name := "y"; Type_ := porINTEGER; DefaultValue := None |};
                    {| Name := "z"; Type_ := porNUMERICAL; DefaultValue := None |} ] |}.

Definition world_xyz : world :=
  set_funcs {[ 1%positive := sig_xyz ]} empty_world.

(** The signature [a (default 1), b (default 2)], with its two defaults at
    the addresses 1 and 2 of the store. *)
Definition sig_ab : FuncDescObj :=
  {| function := first_argument;
     num_of_params := 2;
     ParamInfo := [ {| Name := "a"; Type_ := porINTEGER; DefaultValue := Some 1%positive |};
                    {| Name := "b"; Type_ := porINTEGER; DefaultValue := Some 2%positive |} ] |}.

Definition world_ab : world :=
  {| portions := {[ 1%positive := numerical_Portion porINTEGER 1;
                    2%positive := numerical_Portion porINTEGER 2 ]};
     funcs := {[ 1%positive := sig_ab ]};
     gerr := EmptyString;
     invocations := [] |}.

(** A call on [sig_xyz] with all three slots empty and the cursor past them. *)
Definition call_xyz : CallFunctionObject :=
  {| func_name := "F";
     func_desc_obj := 1%positive;
     param := [None; None; None];
     current_param_index := 3 |}.

(** The restriction of the header of [gsmfunc.cc] on [porNUMERICAL]: a
    parameter of that type has no default value. *)
Definition porNUMERICAL_without_default (fd : FuncDescObj) : Prop :=
  Forall (fun info => Type_ info = porNUMERICAL ->
                      DefaultValue info = NO_DEFAULT_VALUE)
         (ParamInfo fd).

(** A module that declares a [porNUMERICAL] parameter with a default:
    [FuncObj = new FuncDescObj( f, 1 );
     FuncObj->SetParamInfo( 0, "n", porNUMERICAL, new numerical_Portion<double>( 1 ) );] *)
Definition Init_numerical_default (NDEBUG : bool) : M positive :=
  FuncObj ← FuncDescObj.ctor NDEBUG first_argument 1;
  d ← Portion_new (numerical_Portion porDOUBLE 1);
  FuncDescObj.SetParamInfo NDEBUG FuncObj 0 "n" porNUMERICAL d;;
  mret FuncObj.

(** What the constructor of [CallFunctionObject] leaves in a slot, for a
    parameter with the default [default]: from the store [h] to the store
    [h'], the slot is empty when there is no default, and otherwise holds the
    address of a [Portion] that is new in [h'] and has the contents of the
    default. *)
Definition seeded (h h' : gmap positive Portion) (default : Portion_ptr)
    (slot : option Portion_ptr) : Prop :=
  match default with
  | None => slot = Some None
  | Some d => exists l, slot = Some (Some l) /\ h !! l = None /\ h' !! l = h !! d
  end.

(** Binding ["b"] by name and executing:
    [CallFunctionObject call( name, func );
     call.SetCurrParamIndex( call.FindParamName( "b" ) );
     call.SetCurrParam( new numerical_Portion<T>( v ) );
     call.CallFunction();] *)
Definition call_binding_b (NDEBUG : bool) (name : gString) (func : positive)
    (v : Portion) : M Portion_ptr :=
  call ← CallFunctionObject.ctor NDEBUG name func;
  index ← CallFunctionObject.FindParamName call "b";
  new_param ← Portion_new v;
  call' ← CallFunctionObject.SetCurrParam
            (CallFunctionObject.SetCurrParamIndex call index) new_param;
  CallFunctionObject.CallFunction NDEBUG call'.

(** Executing a call as it is constructed:
    [CallFunctionObject call( name, func ); call.CallFunction();] *)
Definition call_with_defaults (NDEBUG : bool) (name : gString) (func : positive)
    : M Portion_ptr :=
  call ← CallFunctionObject.ctor NDEBUG name func;
  CallFunctionObject.CallFunction NDEBUG call.

(** The store after a declaration that went through, for the descriptor
    [fd] at address [this]. *)
Definition declared (w : world) (this : positive) (fd : FuncDescObj)
    (index : nat) (name : gString) (type : PortionType)
    (default_value : Portion_ptr) : world :=
  set_funcs
    (<[this := {| function := function fd;
                  num_of_params := num_of_params fd;
                  ParamInfo := <[index := {| Name := name; Type_ := type;
                                             DefaultValue := default_value |}]>
                                 (ParamInfo fd) |}]> (funcs w)) w.

(** The store after [delete] of what a slot held. *)
Definition released (old : Portion_ptr) (w : world) : world :=
  match old with
  | Some l => set_portions (delete l (portions w)) w
  | None => w
  end.

(** A descriptor without parameters; a call on [sig_ab] as its constructor
    leaves it, with the copies of the defaults at 3 and 4, then a value 5 at
    address 5, and the cursor where [cursor] says. *)
Definition sig_nullary : FuncDescObj :=
  {| function := first_argument; num_of_params := 0; ParamInfo := [] |}.

Definition world_nullary : world :=
  set_funcs {[ 1%positive := sig_nullary ]} empty_world.

Definition world_ab_call : world :=
  set_portions (<[5%positive := numerical_Portion porINTEGER 5]>
                  (<[4%positive := numerical_Portion porINTEGER 2]>
                     (<[3%positive := numerical_Portion porINTEGER 1]>
                        (portions world_ab)))) world_ab.

Definition call_ab (cursor : Z) : CallFunctionObject :=
  {| func_name := "f";
     func_desc_obj := 1%positive;
     param := [Some 3%positive; Some 4%positive];
     current_param_index := cursor |}.

(** ** Ownership *)

(** No [Portion] is held by two slots. *)
Definition distinct_slots (param : list Portion_ptr) : Prop :=
  forall (i j : nat) (l : positive),
    param !! i = Some (Some l) -> param !! j = Some (Some l) -> i = j.

(** No [Portion] is the default of two parameters. *)
Definition distinct_defaults (fd : FuncDescObj) : Prop :=
  forall (i j : nat) (a b : ParamInfoType) (l : positive),
    ParamInfo fd !! i = Some a -> ParamInfo fd !! j = Some b ->
    DefaultValue a = Some l -> DefaultValue b = Some l -> i = j.

(** [l] is the address of a default of the descriptor. *)
Definition is_default (fd : FuncDescObj) (l : positive) : Prop :=
  exists info, info ∈ ParamInfo fd /\ DefaultValue info = Some l.

(** A call that owns what its slots hold: besides [CallFunctionObject_inv],
    no two slots hold the same [Portion], and no slot holds a default of the
    descriptor. *)
Definition CallFunctionObject_owns (w : world) (this : CallFunctionObject)
    (fd : FuncDescObj) : Prop :=
  CallFunctionObject_inv w this fd /\
  distinct_slots (param this) /\
  forall l, Some l ∈ param this -> ~ is_default fd l.

(** [l] is the address of the default of a parameter at index [i] or
    later. *)
Definition default_from (fd : FuncDescObj) (i : nat) (l : positive) : Prop :=
  exists (j : nat) (a : ParamInfoType),
    (i <= j)%nat /\ ParamInfo fd !! j = Some a /\ DefaultValue a = Some l.

(** Two parameters with one [Portion] as the default of both. *)
Definition sig_shared : FuncDescObj :=
  {| function := first_argument;
     num_of_params := 2;
     ParamInfo := [ {| Name := "a"; Type_ := porINTEGER; DefaultValue := Some 1%positive |};
                    {| Name := "b"; Type_ := porINTEGER; DefaultValue := Some 1%positive |} ] |}.

Definition world_shared : world :=
  {| portions := {[ 1%positive := numerical_Portion porINTEGER 1 ]};
     funcs := {[ 1%positive := sig_shared ]};
     gerr := EmptyString;
     invocations := [] |}.

(** ** Basic facts on the monad *)

Lemma bind_Returns {A B : Type} (m : M A) (k : A -> M B) (w w' : world) (a : A) :
  m w = Returns a w' -> (m ≫= k) w = k a w'.
Proof. intros E. unfold mbind, M_bind. now rewrite E. Qed.

Lemma bind_Undefined {A B : Type} (m : M A) (k : A -> M B) (w : world) :
  m w = Undefined -> (m ≫= k) w = Undefined.
Proof. intros E. unfold mbind, M_bind. now rewrite E. Qed.

Lemma c_assert_holds (ndebug : bool) (w : world) :
  c_assert ndebug true w = Returns () w.
Proof. now destruct ndebug. Qed.

Lemma c_assert_NDEBUG (e : bool) (w : world) :
  c_assert true e w = Returns () w.
Proof. reflexivity. Qed.

Lemma array_get_nat {A : Type} (a : list A) (i : nat) (x : A) (w : world) :
  a !! i = Some x -> array_get a (Z.of_nat i) w = Returns x w.
Proof.
  intros E. unfold array_get.
  replace (0 <=? Z.of_nat i) with true by (symmetry; apply Z.leb_le; lia).
  now rewrite Nat2Z.id, E.
Qed.

Lemma array_get_negative {A : Type} (a : list A) (i : Z) (w : world) :
  i < 0 -> array_get a i w = Undefined.
Proof.
  intros Hi. unfold array_get.
  now replace (0 <=? i) with false by (symmetry; apply Z.leb_gt; lia).
Qed.

Lemma array_set_nat {A : Type} (a : list A) (i : nat) (x : A) (w : world) :
  (i < length a)%nat ->
  array_set a (Z.of_nat i) x w = Returns (<[i := x]> a) w.
Proof.
  intros Hi. unfold array_set.
  replace ((0 <=? Z.of_nat i) && (Z.of_nat i <? Z.of_nat (length a))) with true.
  - now rewrite Nat2Z.id.
  - symmetry. apply andb_true_iff. split; [apply Z.leb_le | apply Z.ltb_lt]; lia.
Qed.

Lemma index_in_range (i : nat) (n : Z) (len : nat) :
  n = Z.of_nat len -> (i < len)%nat ->
  (0 <=? Z.of_nat i) && (Z.of_nat i <? n) = true.
Proof.
  intros -> Hi. apply andb_true_iff.
  split; [apply Z.leb_le | apply Z.ltb_lt]; lia.
Qed.

(** ** The accessors of [FuncDescObj] *)

Section Accessors.

Variables (ndebug : bool) (w : world) (this : positive) (fd : FuncDescObj).
Hypothesis Hload : funcs w !! this = Some fd.
Hypothesis Hsize : num_of_params fd = Z.of_nat (length (ParamInfo fd)).

Lemma load_FuncDescObj_eq : load_FuncDescObj this w = Returns fd w.
Proof using Hload. unfold load_FuncDescObj. now rewrite Hload. Qed.

Lemma NumParams_eq : FuncDescObj.NumParams this w = Returns (num_of_params fd) w.
Proof using Hload.
  unfold FuncDescObj.NumParams. now rewrite (bind_Returns _ _ _ _ _ load_FuncDescObj_eq).
Qed.

Lemma ParamName_eq (i : nat) (info : ParamInfoType) :
  ParamInfo fd !! i = Some info ->
  FuncDescObj.ParamName ndebug this (Z.of_nat i) w = Returns (Name info) w.
Proof using Hload Hsize.
  intros Hi. unfold FuncDescObj.ParamName.
  rewrite (bind_Returns _ _ _ _ _ load_FuncDescObj_eq).
  rewrite (index_in_range i _ _ Hsize (lookup_lt_Some _ _ _ Hi)).
  rewrite (bind_Returns _ _ _ _ _ (c_assert_holds ndebug w)).
  now rewrite (bind_Returns _ _ _ _ _ (array_get_nat _ _ _ w Hi)).
Qed.

Lemma ParamType_eq (i : nat) (info : ParamInfoType) :
  ParamInfo fd !! i = Some info ->
  FuncDescObj.ParamType ndebug this (Z.of_nat i) w = Returns (Type_ info) w.
Proof using Hload Hsize.
  intros Hi. unfold FuncDescObj.ParamType.
  rewrite (bind_Returns _ _ _ _ _ load_FuncDescObj_eq).
  rewrite (index_in_range i _ _ Hsize (lookup_lt_Some _ _ _ Hi)).
  rewrite (bind_Returns _ _ _ _ _ (c_assert_holds ndebug w)).
  now rewrite (bind_Returns _ _ _ _ _ (array_get_nat _ _ _ w Hi)).
Qed.

(** The scan of [FindParamName] stops at the first slot that bears the
    name. *)
Lemma FindParamName_loop_found (name : gString) (k : nat) (info : ParamInfoType) :
  ParamInfo fd !! k = Some info -> Name info = name ->
  forall (n i : nat),
    (i <= k < i + n)%nat ->
    (forall j q, (i <= j < k)%nat -> ParamInfo fd !! j = Some q -> Name q <> name) ->
    FuncDescObj.FindParamName_loop fd name n (Z.of_nat i) w = Returns (Z.of_nat k) w.
Proof.
  intros Hk Hname. induction n as [|n IH]; intros i Hi Hbefore; [lia|].
  destruct (lookup_lt_is_Some_2 (ParamInfo fd) i) as [x Hx].
  { apply lookup_lt_Some in Hk. lia. }
  cbn [FuncDescObj.FindParamName_loop].
  rewrite (bind_Returns _ _ _ _ _ (array_get_nat _ _ _ w Hx)).
  destruct (String.eqb_spec (Name x) name) as [E|E].
  - destruct (decide (i = k)) as [->|Hne]; [reflexivity|].
    exfalso. apply (Hbefore i x); [lia | exact Hx | exact E].
  - assert (i <> k) by (intros ->; congruence).
    replace (Z.of_nat i + 1) with (Z.of_nat (S i)) by lia.
    apply IH; [lia|]. intros j q Hj. apply Hbefore. lia.
Qed.

Lemma FindParamName_loop_not_found (name : gString) :
  forall (n i : nat),
    (i + n <= length (ParamInfo fd))%nat ->
    (forall j q, (i <= j)%nat -> ParamInfo fd !! j = Some q -> Name q <> name) ->
    FuncDescObj.FindParamName_loop fd name n (Z.of_nat i) w = Returns (-1) w.
Proof.
  induction n as [|n IH]; intros i Hi Hno; [reflexivity|].
  destruct (lookup_lt_is_Some_2 (ParamInfo fd) i) as [x Hx]; [lia|].
  cbn [FuncDescObj.FindParamName_loop].
  rewrite (bind_Returns _ _ _ _ _ (array_get_nat _ _ _ w Hx)).
  destruct (String.eqb_spec (Name x) name) as [E|E].
  - exfalso. apply (Hno i x); [lia | exact Hx | exact E].
  - replace (Z.of_nat i + 1) with (Z.of_nat (S i)) by lia.
    apply IH; [lia|]. intros j q Hj. apply Hno. lia.
Qed.

Lemma FindParamName_first (name : gString) (k : nat) (info : ParamInfoType) :
  ParamInfo fd !! k = Some info -> Name info = name ->
  (forall j q, (j < k)%nat -> ParamInfo fd !! j = Some q -> Name q <> name) ->
  FuncDescObj.FindParamName this name w = Returns (Z.of_nat k) w.
Proof using Hload Hsize.
  intros Hk Hname Hbefore. unfold FuncDescObj.FindParamName.
  rewrite (bind_Returns _ _ _ _ _ load_FuncDescObj_eq), Hsize, Nat2Z.id.
  apply (FindParamName_loop_found name k info Hk Hname _ 0%nat).
  - apply lookup_lt_Some in Hk. lia.
  - intros j q Hj. apply Hbefore. lia.
Qed.

Lemma FindParamName_absent (name : gString) :
  (forall info, info ∈ ParamInfo fd -> Name info <> name) ->
  FuncDescObj.FindParamName this name w = Returns (-1) w.
Proof using Hload Hsize.
  intros Hno. unfold FuncDescObj.FindParamName.
  rewrite (bind_Returns _ _ _ _ _ load_FuncDescObj_eq), Hsize, Nat2Z.id.
  apply (FindParamName_loop_not_found name _ 0%nat); [lia|].
  intros j q _ Hq. apply Hno. now apply list_elem_of_lookup_2 with j.
Qed.

(** The scan of [SetParamInfo] finds the same thing. *)
Lemma SetParamInfo_loop_found (name : gString) (k : nat) (info : ParamInfoType) :
  ParamInfo fd !! k = Some info -> Name info = name ->
  forall (n i : nat),
    (i <= k < i + n)%nat ->
    FuncDescObj.SetParamInfo_loop fd name n (Z.of_nat i) w = Returns true w.
Proof.
  intros Hk Hname. induction n as [|n IH]; intros i Hi; [lia|].
  destruct (lookup_lt_is_Some_2 (ParamInfo fd) i) as [x Hx].
  { apply lookup_lt_Some in Hk. lia. }
  cbn [FuncDescObj.SetParamInfo_loop].
  rewrite (bind_Returns _ _ _ _ _ (array_get_nat _ _ _ w Hx)).
  destruct (String.eqb_spec (Name x) name) as [E|E]; [reflexivity|].
  assert (i <> k) by (intros ->; congruence).
  replace (Z.of_nat i + 1) with (Z.of_nat (S i)) by lia.
  apply IH. lia.
Qed.

Lemma SetParamInfo_loop_not_found (name : gString) :
  forall (n i : nat),
    (i + n <= length (ParamInfo fd))%nat ->
    (forall j q, (i <= j)%nat -> ParamInfo fd !! j = Some q -> Name q <> name) ->
    FuncDescObj.SetParamInfo_loop fd name n (Z.of_nat i) w = Returns false w.
Proof.
  induction n as [|n IH]; intros i Hi Hno; [reflexivity|].
  destruct (lookup_lt_is_Some_2 (ParamInfo fd) i) as [x Hx]; [lia|].
  cbn [FuncDescObj.SetParamInfo_loop].
  rewrite (bind_Returns _ _ _ _ _ (array_get_nat _ _ _ w Hx)).
  destruct (String.eqb_spec (Name x) name) as [E|E].
  - exfalso. apply (Hno i x); [lia | exact Hx | exact E].
  - replace (Z.of_nat i + 1) with (Z.of_nat (S i)) by lia.
    apply IH; [lia|]. intros j q Hj. apply Hno. lia.
Qed.

End Accessors.

(** ** Looking a parameter up by name *)

(** C9: [FindParamName] returns [-1], and reports nothing, when no slot of
    the descriptor bears the name; it returns the index of the first slot
    that bears it otherwise, which is the index of the parameter when the
    names are distinct; [CallFunctionObject::FindParamName] gives the answer
    of the descriptor it borrows; on parameters ["x"; "y"; "z"], the index of
    ["y"] is 1. *)
Theorem FindParamName_spec (w : world) (fd : FuncDescObj)
    (c : CallFunctionObject) (name : gString) :
  funcs w !! func_desc_obj c = Some fd ->
  num_of_params fd = Z.of_nat (length (ParamInfo fd)) ->
  ((forall info, info ∈ ParamInfo fd -> Name info <> name) ->
   FuncDescObj.FindParamName (func_desc_obj c) name w = Returns (-1) w)
  /\ (forall (i : nat) info,
        ParamInfo fd !! i = Some info -> Name info = name ->
        (forall j q, (j < i)%nat -> ParamInfo fd !! j = Some q -> Name q <> name) ->
        FuncDescObj.FindParamName (func_desc_obj c) name w = Returns (Z.of_nat i) w)
  /\ (NoDup (Name <$> ParamInfo fd) ->
      forall (i : nat) info,
        ParamInfo fd !! i = Some info -> Name info = name ->
        FuncDescObj.FindParamName (func_desc_obj c) name w = Returns (Z.of_nat i) w)
  /\ CallFunctionObject.FindParamName c name w
     = FuncDescObj.FindParamName (func_desc_obj c) name w
  /\ (Name <$> ParamInfo fd = ["x"; "y"; "z"]%string ->
      FuncDescObj.FindParamName (func_desc_obj c) "y" w = Returns 1 w
      /\ CallFunctionObject.FindParamName c "y" w = Returns 1 w).
Proof.
  intros Hload Hsize. split; [|split; [|split; [|split]]].
  - apply FindParamName_absent; assumption.
  - intros i info. apply FindParamName_first; assumption.
  - intros Hnodup i info Hi Hname.
    apply (FindParamName_first w _ fd Hload Hsize name i info Hi Hname).
    intros j q Hj Hq E.
    assert ((Name <$> ParamInfo fd) !! i = Some name) as Hi'
      by (rewrite list_lookup_fmap, Hi; simpl; congruence).
    assert ((Name <$> ParamInfo fd) !! j = Some name) as Hj'
      by (rewrite list_lookup_fmap, Hq; simpl; congruence).
    pose proof (NoDup_lookup _ _ _ _ Hnodup Hi' Hj'). lia.
  - reflexivity.
  - intros Hnames.
    assert (FuncDescObj.FindParamName (func_desc_obj c) "y" w = Returns 1 w) as E.
    { assert (exists px py l, ParamInfo fd = px :: py :: l
                /\ Name px = "x"%string /\ Name py = "y"%string)
        as (px & py & l & Hinfos & Hx & Hy).
      { destruct (ParamInfo fd) as [|px [|py l]]; try discriminate.
        injection Hnames as Hx Hy _. eauto 10. }
      apply (FindParamName_first w _ fd Hload Hsize "y" 1%nat py).
      - now rewrite Hinfos.
      - exact Hy.
      - intros j q Hj Hq. assert (j = 0)%nat as -> by lia.
        rewrite Hinfos in Hq. injection Hq as <-. rewrite Hx. discriminate. }
    split; [exact E | exact E].
Qed.

(** C9 on the descriptor [sig_xyz]. *)
Lemma FindParamName_spec_witness :
  FuncDescObj.FindParamName 1 "y" world_xyz = Returns 1 world_xyz
  /\ FuncDescObj.FindParamName 1 "t" world_xyz = Returns (-1) world_xyz.
Proof.
  assert (funcs world_xyz !! func_desc_obj call_xyz = Some sig_xyz) as Hload
    by reflexivity.
  assert (num_of_params sig_xyz = Z.of_nat (length (ParamInfo sig_xyz))) as Hsize
    by reflexivity.
  split.
  - destruct (FindParamName_spec world_xyz sig_xyz call_xyz "y" Hload Hsize)
      as (_ & _ & _ & _ & Hxyz).
    apply Hxyz. reflexivity.
  - destruct (FindParamName_spec world_xyz sig_xyz call_xyz "t" Hload Hsize)
      as (Habsent & _).
    apply Habsent. intros info Hin. vm_compute in Hin.
    repeat (apply elem_of_cons in Hin as [-> | Hin]; [discriminate|]).
    now apply elem_of_nil in Hin.
Defined.

(** ** The cursor *)

(** C8: [SetCurrParamIndex] moves the cursor to the index it is given,
    whatever the index, and touches nothing else; [GetCurrParamIndex] then
    returns that index. *)
Theorem SetCurrParamIndex_spec (c : CallFunctionObject) (index : Z) :
  current_param_index (CallFunctionObject.SetCurrParamIndex c index) = index
  /\ CallFunctionObject.GetCurrParamIndex
       (CallFunctionObject.SetCurrParamIndex c index) = index
  /\ param (CallFunctionObject.SetCurrParamIndex c index) = param c
  /\ func_desc_obj (CallFunctionObject.SetCurrParamIndex c index) = func_desc_obj c
  /\ func_name (CallFunctionObject.SetCurrParamIndex c index) = func_name c.
Proof. repeat split. Qed.

(** ** Too many parameters *)

(** C5: with the cursor at or past the number of parameters,
    [GetCurrParamType] writes the diagnostic and returns [porERROR], and
    [SetCurrParam] writes the diagnostic and returns the object as it was:
    same slots, same cursor; the store of values and the descriptors are
    untouched, and no entry point is called. *)
Theorem TooManyParameters_keeps_state (ndebug : bool) (w : world)
    (fd : FuncDescObj) (c : CallFunctionObject) (new_param : Portion_ptr) :
  funcs w !! func_desc_obj c = Some fd ->
  num_of_params fd <= current_param_index c ->
  CallFunctionObject.GetCurrParamType ndebug c w
    = Returns porERROR (set_gerr (gerr w +:+ TooManyParameters (func_name c)) w)
  /\ CallFunctionObject.SetCurrParam c new_param w
    = Returns c (set_gerr (gerr w +:+ TooManyParameters (func_name c)) w).
Proof.
  intros Hload Hpast.
  assert ((current_param_index c <? num_of_params fd) = false) as Hlt
    by (apply Z.ltb_ge; lia).
  split.
  - unfold CallFunctionObject.GetCurrParamType.
    rewrite (bind_Returns _ _ _ _ _ (NumParams_eq w _ fd Hload)), Hlt.
    reflexivity.
  - unfold CallFunctionObject.SetCurrParam.
    rewrite (bind_Returns _ _ _ _ _ (NumParams_eq w _ fd Hload)), Hlt.
    reflexivity.
Qed.

(** C5 on [call_xyz], whose cursor is 3 for 3 parameters. *)
Lemma TooManyParameters_keeps_state_witness :
  CallFunctionObject.SetCurrParam call_xyz None world_xyz
  = Returns call_xyz (set_gerr (gerr world_xyz +:+ TooManyParameters "F") world_xyz).
Proof.
  apply (TooManyParameters_keeps_state false world_xyz sig_xyz call_xyz None).
  - reflexivity.
  - vm_compute. discriminate.
Defined.

(** ** Declaring parameters *)

Section SetParamInfo.

Variables (w : world) (this : positive) (fd : FuncDescObj).
Hypothesis Hload : funcs w !! this = Some fd.
Hypothesis Hsize : num_of_params fd = Z.of_nat (length (ParamInfo fd)).

(** The scan of [SetParamInfo] stays inside the array and so always ends
    with an answer. *)
Lemma SetParamInfo_loop_returns (name : gString) :
  forall (n i : nat),
    (i + n <= length (ParamInfo fd))%nat ->
    exists b, FuncDescObj.SetParamInfo_loop fd name n (Z.of_nat i) w = Returns b w.
Proof.
  induction n as [|n IH]; intros i Hi; [now exists false|].
  destruct (lookup_lt_is_Some_2 (ParamInfo fd) i) as [x Hx]; [lia|].
  cbn [FuncDescObj.SetParamInfo_loop].
  rewrite (bind_Returns _ _ _ _ _ (array_get_nat _ _ _ w Hx)).
  destruct (String.eqb (Name x) name); [now exists true|].
  replace (Z.of_nat i + 1) with (Z.of_nat (S i)) by lia.
  apply IH. lia.
Qed.

(** In a build with [NDEBUG] every declaration at a valid index goes
    through, silently. *)
Lemma SetParamInfo_NDEBUG (index : nat) (name : gString) (type : PortionType)
    (default_value : Portion_ptr) :
  (index < length (ParamInfo fd))%nat ->
  FuncDescObj.SetParamInfo true this (Z.of_nat index) name type default_value w
  = Returns () (declared w this fd index name type default_value).
Proof using Hload Hsize.
  intros Hindex. unfold FuncDescObj.SetParamInfo.
  rewrite (bind_Returns _ _ _ _ _ (load_FuncDescObj_eq w this fd Hload)).
  rewrite (bind_Returns _ _ _ _ _ (c_assert_NDEBUG _ w)).
  destruct (SetParamInfo_loop_returns name (length (ParamInfo fd)) 0%nat) as [b Hb];
    [lia|].
  replace (Z.to_nat (num_of_params fd)) with (length (ParamInfo fd))
    by (rewrite Hsize; lia).
  rewrite (bind_Returns _ _ _ _ _ Hb).
  rewrite (bind_Returns _ _ w w () eq_refl).
  now rewrite (bind_Returns _ _ _ _ _ (array_set_nat _ _ _ w Hindex)).
Qed.

(** In every build a declaration at a valid index under a name that no slot
    bears goes through, silently. *)
Lemma SetParamInfo_new_name (ndebug : bool) (index : nat) (name : gString)
    (type : PortionType) (default_value : Portion_ptr) :
  (index < length (ParamInfo fd))%nat ->
  (forall info, info ∈ ParamInfo fd -> Name info <> name) ->
  FuncDescObj.SetParamInfo ndebug this (Z.of_nat index) name type default_value w
  = Returns () (declared w this fd index name type default_value).
Proof using Hload Hsize.
  intros Hindex Hnew. destruct ndebug; [now apply SetParamInfo_NDEBUG|].
  unfold FuncDescObj.SetParamInfo.
  rewrite (bind_Returns _ _ _ _ _ (load_FuncDescObj_eq w this fd Hload)).
  rewrite (index_in_range index _ _ Hsize Hindex).
  rewrite (bind_Returns _ _ _ _ _ (c_assert_holds false w)).
  replace (Z.to_nat (num_of_params fd)) with (length (ParamInfo fd))
    by (rewrite Hsize; lia).
  rewrite (bind_Returns _ _ _ _ _
             (SetParamInfo_loop_not_found w fd name (length (ParamInfo fd)) 0%nat
                ltac:(lia)
                ltac:(intros j q _ Hq; apply Hnew;
                      now apply list_elem_of_lookup_2 with j))).
  rewrite (bind_Returns _ _ w w () eq_refl).
  now rewrite (bind_Returns _ _ _ _ _ (array_set_nat _ _ _ w Hindex)).
Qed.

End SetParamInfo.

(** C1, in a build without [NDEBUG]: declaring at a valid index a parameter
    under a name that a slot of the descriptor already bears writes the
    diagnostic of the repeated name and stops at the failed [assert]; nothing
    of the descriptor was written: the name, the type and the default at the
    index are as before. *)
Theorem SetParamInfo_repeated_name_aborts (w : world) (this : positive)
    (fd : FuncDescObj) (index : Z) (name : gString) (type : PortionType)
    (default_value : Portion_ptr) :
  funcs w !! this = Some fd ->
  num_of_params fd = Z.of_nat (length (ParamInfo fd)) ->
  0 <= index < num_of_params fd ->
  (exists info, info ∈ ParamInfo fd /\ Name info = name) ->
  FuncDescObj.SetParamInfo false this index name type default_value w
  = Aborted (set_gerr (gerr w +:+ DuplicateParameterName name) w)
  /\ funcs (set_gerr (gerr w +:+ DuplicateParameterName name) w) !! this
     = Some fd.
Proof.
  intros Hload Hsize Hindex (info & Hin & Hname).
  split; [|exact Hload].
  apply list_elem_of_lookup_1 in Hin as [k Hk].
  pose proof (lookup_lt_Some _ _ _ Hk) as Hklt.
  unfold FuncDescObj.SetParamInfo.
  rewrite (bind_Returns _ _ _ _ _ (load_FuncDescObj_eq w this fd Hload)).
  replace ((0 <=? index) && (index <? num_of_params fd)) with true
    by (symmetry; apply andb_true_iff;
        split; [apply Z.leb_le | apply Z.ltb_lt]; lia).
  rewrite (bind_Returns _ _ _ _ _ (c_assert_holds false w)).
  replace (Z.to_nat (num_of_params fd)) with (length (ParamInfo fd))
    by (rewrite Hsize; lia).
  rewrite (bind_Returns _ _ _ _ _
             (SetParamInfo_loop_found w fd name k info Hk Hname
                (length (ParamInfo fd)) 0%nat ltac:(lia))).
  reflexivity.
Qed.

(** C1 on [sig_xyz]: declaring ["x"] again, at index 1. *)
Lemma SetParamInfo_repeated_name_aborts_witness :
  FuncDescObj.SetParamInfo false 1 1 "x" porINTEGER None world_xyz
  = Aborted (set_gerr (gerr world_xyz +:+ DuplicateParameterName "x") world_xyz).
Proof.
  apply (SetParamInfo_repeated_name_aborts world_xyz 1 sig_xyz 1 "x"
           porINTEGER None).
  - reflexivity.
  - reflexivity.
  - simpl. lia.
  - exists {| Name := "x"; Type_ := porDOUBLE; DefaultValue := None |}.
    split; [now apply (list_elem_of_lookup_2 _ 0%nat) | reflexivity].
Defined.

(** C1 does not hold in a build with [NDEBUG], where the check is compiled
    out: on [sig_xyz], declaring ["x"] again at index 1 returns normally,
    writes nothing to [gerr] and overwrites the slot of ["y"]. *)
Lemma SetParamInfo_repeated_name_NDEBUG :
  exists w',
    FuncDescObj.SetParamInfo true 1 1 "x" porINTEGER None world_xyz
    = Returns () w'
    /\ gerr w' = gerr world_xyz
    /\ ParamInfo <$> funcs w' !! 1%positive
       = Some [ {| Name := "x"; Type_ := porDOUBLE; DefaultValue := None |};
                {| Name := "x"; Type_ := porINTEGER; DefaultValue := None |};
                {| Name := "z"; Type_ := porNUMERICAL; DefaultValue := None |} ]
    /\ ~ (gerr w' = gerr world_xyz +:+ DuplicateParameterName "x"
          /\ funcs w' !! 1%positive = Some sig_xyz).
Proof.
  eexists. split; [vm_compute; reflexivity|].
  split; [reflexivity|]. split; [reflexivity|].
  intros [Hgerr _]. vm_compute in Hgerr. discriminate.
Qed.

(** C7, at the failing input: [SetParamInfo] accepts a default for a
    [porNUMERICAL] parameter in every build; the declaration returns
    normally, without a diagnostic, and the descriptor then holds a
    [porNUMERICAL] parameter with a default. *)
Theorem SetParamInfo_porNUMERICAL_with_default (ndebug : bool) :
  exists FuncObj w' fd,
    Init_numerical_default ndebug empty_world = Returns FuncObj w'
    /\ gerr w' = EmptyString
    /\ funcs w' !! FuncObj = Some fd
    /\ ParamInfo fd
       = [ {| Name := "n"; Type_ := porNUMERICAL; DefaultValue := Some 1%positive |} ]
    /\ portions w' !! 1%positive = Some (numerical_Portion porDOUBLE 1)
    /\ ~ porNUMERICAL_without_default fd.
Proof.
  destruct ndebug.
  - eexists _, _, _. split; [vm_compute; reflexivity|].
    split; [reflexivity|]. split; [reflexivity|].
    split; [reflexivity|]. split; [reflexivity|].
    intros H. apply Forall_inv in H. discriminate (H eq_refl).
  - eexists _, _, _. split; [vm_compute; reflexivity|].
    split; [reflexivity|]. split; [reflexivity|].
    split; [reflexivity|]. split; [reflexivity|].
    intros H. apply Forall_inv in H. discriminate (H eq_refl).
Qed.

(** ** Executing a call *)

Section CallFunction.

Variables (ndebug : bool) (w : world) (c : CallFunctionObject) (fd : FuncDescObj).
Hypothesis Hload : funcs w !! func_desc_obj c = Some fd.
Hypothesis Hsize : num_of_params fd = Z.of_nat (length (ParamInfo fd)).
Hypothesis Hslots : length (param c) = length (ParamInfo fd).

(** The scan of [CallFunction] stops at the first empty slot, with the
    diagnostic that names the parameter of that slot. *)
Lemma CallFunction_loop_missing (k : nat) (info : ParamInfoType) :
  param c !! k = Some None ->
  ParamInfo fd !! k = Some info ->
  forall (n i : nat),
    (i <= k < i + n)%nat ->
    (forall j, (i <= j < k)%nat -> param c !! j <> Some None) ->
    CallFunctionObject.CallFunction_loop ndebug c n (Z.of_nat i) w
    = Returns false
        (set_gerr (gerr w +:+ MissingRequiredParameter (Name info) (func_name c)) w).
Proof.
  intros Hk Hinfo. induction n as [|n IH]; intros i Hi Hbefore; [lia|].
  destruct (lookup_lt_is_Some_2 (param c) i) as [p Hp].
  { apply lookup_lt_Some in Hk. lia. }
  cbn [CallFunctionObject.CallFunction_loop].
  rewrite (bind_Returns _ _ _ _ _ (array_get_nat _ _ _ w Hp)).
  destruct (decide (p = None)) as [->|Hfull].
  - assert (i = k) as ->.
    { destruct (decide (i = k)) as [|Hne]; [assumption|].
      exfalso. apply (Hbefore i); [lia | exact Hp]. }
    rewrite (bind_Returns _ _ _ _ _
               (ParamName_eq ndebug w _ fd Hload Hsize k info Hinfo)).
    reflexivity.
  - rewrite (bool_decide_eq_true_2 _ Hfull).
    rewrite (bind_Returns _ _ _ _ _ (c_assert_holds ndebug w)).
    assert (i <> k) by (intros ->; congruence).
    replace (Z.of_nat i + 1) with (Z.of_nat (S i)) by lia.
    apply IH; [lia|]. intros j Hj. apply Hbefore. lia.
Qed.

(** With no empty slot the scan runs to its end, silently. *)
Lemma CallFunction_loop_complete :
  forall (n i : nat),
    (i + n <= length (param c))%nat ->
    (forall j, (i <= j)%nat -> param c !! j <> Some None) ->
    CallFunctionObject.CallFunction_loop ndebug c n (Z.of_nat i) w = Returns true w.
Proof.
  induction n as [|n IH]; intros i Hi Hfull; [reflexivity|].
  destruct (lookup_lt_is_Some_2 (param c) i) as [p Hp]; [lia|].
  cbn [CallFunctionObject.CallFunction_loop].
  rewrite (bind_Returns _ _ _ _ _ (array_get_nat _ _ _ w Hp)).
  destruct (decide (p = None)) as [->|Hp'].
  - exfalso. apply (Hfull i); [lia | exact Hp].
  - rewrite (bool_decide_eq_true_2 _ Hp').
    rewrite (bind_Returns _ _ _ _ _ (c_assert_holds ndebug w)).
    replace (Z.of_nat i + 1) with (Z.of_nat (S i)) by lia.
    apply IH; [lia|]. intros j Hj. apply Hfull. lia.
Qed.

Lemma CallFunction_missing (k : nat) (info : ParamInfoType) :
  param c !! k = Some None ->
  ParamInfo fd !! k = Some info ->
  (forall j, (j < k)%nat -> param c !! j <> Some None) ->
  CallFunctionObject.CallFunction ndebug c w
  = Returns None
      (set_gerr (gerr w +:+ MissingRequiredParameter (Name info) (func_name c)) w).
Proof.
  intros Hk Hinfo Hbefore. unfold CallFunctionObject.CallFunction.
  rewrite (bind_Returns _ _ _ _ _ (NumParams_eq w _ fd Hload)).
  replace (Z.to_nat (num_of_params fd)) with (length (ParamInfo fd))
    by (rewrite Hsize; lia).
  rewrite (bind_Returns _ _ _ _ _
             (CallFunction_loop_missing k info Hk Hinfo
                (length (ParamInfo fd)) 0%nat
                ltac:(apply lookup_lt_Some in Hinfo; lia)
                ltac:(intros j Hj; apply Hbefore; lia))).
  reflexivity.
Qed.

Lemma CallFunction_complete :
  None ∉ param c ->
  CallFunctionObject.CallFunction ndebug c w
  = call_entry_point (function fd) (param c) w.
Proof.
  intros Hfull. unfold CallFunctionObject.CallFunction.
  rewrite (bind_Returns _ _ _ _ _ (NumParams_eq w _ fd Hload)).
  replace (Z.to_nat (num_of_params fd)) with (length (ParamInfo fd))
    by (rewrite Hsize; lia).
  rewrite (bind_Returns _ _ _ _ _
             (CallFunction_loop_complete (length (ParamInfo fd)) 0%nat
                ltac:(lia)
                ltac:(intros j _ Hj; apply Hfull;
                      now apply list_elem_of_lookup_2 with j))).
  unfold FuncDescObj.CallFunction.
  now rewrite (bind_Returns _ _ _ _ _ (load_FuncDescObj_eq w _ fd Hload)).
Qed.

End CallFunction.

(** A call of an entry point returns what the entry point returns, in the
    store the entry point leaves, and is recorded once. *)
Lemma call_entry_point_eq (f : entry_point) (args : list Portion_ptr) (w : world) :
  call_entry_point f args w
  = Returns (f args (portions w)).1
      (set_invocations (invocations w ++ [map (deref (portions w)) args])
         (set_portions (f args (portions w)).2 w)).
Proof. unfold call_entry_point. now destruct (f args (portions w)). Qed.

(** C2: when a slot of the call is empty, [CallFunction] writes the
    diagnostic that names the function and the parameter of the first empty
    slot, and returns the null pointer; the entry point is not called:
    [invocations], the values and the descriptors are as before. *)
Theorem CallFunction_missing_parameter (ndebug : bool) (w : world)
    (c : CallFunctionObject) (fd : FuncDescObj) :
  funcs w !! func_desc_obj c = Some fd ->
  num_of_params fd = Z.of_nat (length (ParamInfo fd)) ->
  length (param c) = length (ParamInfo fd) ->
  None ∈ param c ->
  exists (k : nat) (info : ParamInfoType),
    param c !! k = Some None
    /\ (forall j, (j < k)%nat -> param c !! j <> Some None)
    /\ ParamInfo fd !! k = Some info
    /\ CallFunctionObject.CallFunction ndebug c w
       = Returns None
           (set_gerr
              (gerr w +:+ MissingRequiredParameter (Name info) (func_name c)) w)
    /\ invocations
         (set_gerr
            (gerr w +:+ MissingRequiredParameter (Name info) (func_name c)) w)
       = invocations w.
Proof.
  intros Hload Hsize Hslots Hempty.
  destruct (list_find_elem_of (fun p : Portion_ptr => p = None) (param c) None
              Hempty eq_refl) as [[k p] Hfind].
  apply list_find_Some in Hfind as (Hk & -> & Hbefore).
  destruct (lookup_lt_is_Some_2 (ParamInfo fd) k) as [info Hinfo].
  { apply lookup_lt_Some in Hk. lia. }
  assert (forall j, (j < k)%nat -> param c !! j <> Some None) as Hbefore'.
  { intros j Hj E. now apply (Hbefore j None E Hj). }
  exists k, info.
  split; [exact Hk|]. split; [exact Hbefore'|]. split; [exact Hinfo|].
  split; [|reflexivity].
  exact (CallFunction_missing ndebug w c fd Hload Hsize Hslots k info
           Hk Hinfo Hbefore').
Qed.

(** C2 on [call_xyz], whose three slots are empty. *)
Lemma CallFunction_missing_parameter_witness :
  exists (k : nat) (info : ParamInfoType),
    param call_xyz !! k = Some None
    /\ (forall j, (j < k)%nat -> param call_xyz !! j <> Some None)
    /\ ParamInfo sig_xyz !! k = Some info
    /\ CallFunctionObject.CallFunction false call_xyz world_xyz
       = Returns None
           (set_gerr
              (gerr world_xyz
               +:+ MissingRequiredParameter (Name info) (func_name call_xyz))
              world_xyz)
    /\ invocations
         (set_gerr
            (gerr world_xyz
             +:+ MissingRequiredParameter (Name info) (func_name call_xyz))
            world_xyz)
       = invocations world_xyz.
Proof.
  apply (CallFunction_missing_parameter false world_xyz call_xyz sig_xyz).
  - reflexivity.
  - reflexivity.
  - reflexivity.
  - now apply (list_elem_of_lookup_2 _ 0%nat).
Defined.

(** ** Default values *)

Lemma fresh_free (h : gmap positive Portion) : h !! fresh (dom h) = None.
Proof. apply not_elem_of_dom, is_fresh. Qed.

Section ParamDefaultValue.

Variables (ndebug : bool) (w : world) (this : positive) (fd : FuncDescObj).
Hypothesis Hload : funcs w !! this = Some fd.
Hypothesis Hsize : num_of_params fd = Z.of_nat (length (ParamInfo fd)).

Lemma ParamDefaultValue_absent (i : nat) (info : ParamInfoType) :
  ParamInfo fd !! i = Some info ->
  DefaultValue info = NO_DEFAULT_VALUE ->
  FuncDescObj.ParamDefaultValue ndebug this (Z.of_nat i) w = Returns None w.
Proof.
  intros Hi Hnone. unfold FuncDescObj.ParamDefaultValue.
  rewrite (bind_Returns _ _ _ _ _ (load_FuncDescObj_eq w this fd Hload)).
  rewrite (index_in_range i _ _ Hsize (lookup_lt_Some _ _ _ Hi)).
  rewrite (bind_Returns _ _ _ _ _ (c_assert_holds ndebug w)).
  rewrite (bind_Returns _ _ _ _ _ (array_get_nat _ _ _ w Hi)).
  now rewrite decide_True by exact Hnone.
Qed.

Lemma ParamDefaultValue_copy (i : nat) (info : ParamInfoType) (d : positive)
    (v : Portion) :
  ParamInfo fd !! i = Some info ->
  DefaultValue info = Some d ->
  portions w !! d = Some v ->
  FuncDescObj.ParamDefaultValue ndebug this (Z.of_nat i) w
  = Returns (Some (fresh (dom (portions w))))
      (set_portions (<[fresh (dom (portions w)) := v]> (portions w)) w).
Proof.
  intros Hi Hd Hv. unfold FuncDescObj.ParamDefaultValue.
  rewrite (bind_Returns _ _ _ _ _ (load_FuncDescObj_eq w this fd Hload)).
  rewrite (index_in_range i _ _ Hsize (lookup_lt_Some _ _ _ Hi)).
  rewrite (bind_Returns _ _ _ _ _ (c_assert_holds ndebug w)).
  rewrite (bind_Returns _ _ _ _ _ (array_get_nat _ _ _ w Hi)).
  rewrite decide_False by (rewrite Hd; discriminate).
  unfold Portion_Copy. rewrite Hd. cbn [deref]. now rewrite Hv.
Qed.

End ParamDefaultValue.

(** C6: [ParamDefaultValue] returns the null pointer for a parameter without
    a default.  For a parameter whose default is the value [v] at address
    [d], it returns the address [l] of a new [Portion] that holds [v]: [l] is
    the address of no [Portion] that existed before the call, so it is
    neither [d] nor a copy handed out earlier; the descriptor and its default
    are as before; writing or deleting the copy leaves the default as it is,
    and writing the default leaves the copy as it is.  A second call hands
    out another address, and the two copies are independent of each other
    in the same way. *)
Theorem ParamDefaultValue_independent_copy (ndebug : bool) (w : world)
    (this : positive) (fd : FuncDescObj) (i : nat) (info : ParamInfoType) :
  funcs w !! this = Some fd ->
  num_of_params fd = Z.of_nat (length (ParamInfo fd)) ->
  ParamInfo fd !! i = Some info ->
  (DefaultValue info = NO_DEFAULT_VALUE ->
   FuncDescObj.ParamDefaultValue ndebug this (Z.of_nat i) w = Returns None w)
  /\ (forall d v,
        DefaultValue info = Some d -> portions w !! d = Some v ->
        exists l w',
          FuncDescObj.ParamDefaultValue ndebug this (Z.of_nat i) w
          = Returns (Some l) w'
          /\ portions w !! l = None
          /\ l <> d
          /\ w' = set_portions (<[l := v]> (portions w)) w
          /\ portions w' !! l = Some v
          /\ portions w' !! d = Some v
          /\ (forall v', <[l := v']> (portions w') !! d = Some v)
          /\ delete l (portions w') !! d = Some v
          /\ (forall v', <[d := v']> (portions w') !! l = Some v)
          /\ exists l2 w'',
               FuncDescObj.ParamDefaultValue ndebug this (Z.of_nat i) w'
               = Returns (Some l2) w''
               /\ l2 <> l /\ l2 <> d
               /\ portions w'' !! l2 = Some v
               /\ portions w'' !! l = Some v
               /\ (forall v', <[l2 := v']> (portions w'') !! l = Some v)
               /\ (forall v', <[l := v']> (portions w'') !! l2 = Some v)
               /\ (forall v', <[l2 := v']> (portions w'') !! d = Some v)).
Proof.
  intros Hload Hsize Hi. split.
  - exact (ParamDefaultValue_absent ndebug w this fd Hload Hsize i info Hi).
  - intros d v Hd Hv.
    set (l := fresh (dom (portions w))).
    set (w' := set_portions (<[l := v]> (portions w)) w).
    assert (portions w !! l = None) as Hl by apply fresh_free.
    assert (l <> d) as Hld by (intros ->; congruence).
    assert (portions w' !! l = Some v) as Hl' by apply lookup_insert_eq.
    assert (portions w' !! d = Some v) as Hd'.
    { cbn. now rewrite lookup_insert_ne. }
    set (l2 := fresh (dom (portions w'))).
    assert (portions w' !! l2 = None) as Hl2 by apply fresh_free.
    assert (l2 <> l) as Hl2l by (intros E; rewrite E in Hl2; congruence).
    assert (l2 <> d) as Hl2d by (intros E; rewrite E in Hl2; congruence).
    exists l, w'.
    split; [exact (ParamDefaultValue_copy ndebug w this fd Hload Hsize
                     i info d v Hi Hd Hv)|].
    split; [exact Hl|]. split; [exact Hld|]. split; [reflexivity|].
    split; [exact Hl'|]. split; [exact Hd'|].
    split; [intros v'; now rewrite lookup_insert_ne|].
    split; [now rewrite lookup_delete_ne|].
    split; [intros v'; now rewrite lookup_insert_ne|].
    exists l2, (set_portions (<[l2 := v]> (portions w')) w').
    split; [exact (ParamDefaultValue_copy ndebug w' this fd Hload Hsize
                     i info d v Hi Hd Hd')|].
    split; [exact Hl2l|]. split; [exact Hl2d|].
    split; [apply lookup_insert_eq|].
    split; [cbn [portions set_portions]; now rewrite lookup_insert_ne|].
    split; [intros v'; cbn [portions set_portions];
            now rewrite lookup_insert_ne, lookup_insert_ne|].
    split; [intros v'; cbn [portions set_portions];
            rewrite lookup_insert_ne by congruence; apply lookup_insert_eq|].
    intros v'; cbn [portions set_portions].
    rewrite lookup_insert_ne by congruence.
    now rewrite lookup_insert_ne.
Qed.

(** C6 on [sig_ab]: the copy of the default of ["a"] is not at address 1. *)
Lemma ParamDefaultValue_independent_copy_witness :
  exists l w',
    FuncDescObj.ParamDefaultValue false 1 0 world_ab = Returns (Some l) w'
    /\ l <> 1%positive
    /\ portions w' !! l = Some (numerical_Portion porINTEGER 1)
    /\ portions w' !! 1%positive = Some (numerical_Portion porINTEGER 1).
Proof.
  destruct (ParamDefaultValue_independent_copy false world_ab 1 sig_ab 0%nat
              {| Name := "a"; Type_ := porINTEGER; DefaultValue := Some 1%positive |})
    as [_ Hcopy].
  - reflexivity.
  - reflexivity.
  - reflexivity.
  - destruct (Hcopy 1%positive (numerical_Portion porINTEGER 1))
      as (l & w' & Hcall & _ & Hne & _ & Hl & Hd & _).
    + reflexivity.
    + reflexivity.
    + exists l, w'. repeat split; assumption.
Defined.

(** ** Constructing a call *)

Lemma valid_ptr_weaken (h h' : gmap positive Portion) (p : Portion_ptr) :
  h ⊆ h' -> valid_ptr h p -> valid_ptr h' p.
Proof.
  intros Hsub. destruct p as [l|]; [|trivial].
  intros [v Hv]. exists v. now apply (lookup_weaken h).
Qed.

Section Constructor.

Variables (ndebug : bool) (func : positive) (fd : FuncDescObj).
Hypothesis Hsize : num_of_params fd = Z.of_nat (length (ParamInfo fd)).

(** The loop of the constructor, from index [i] to the end: the slots
    before [i] are kept, each slot from [i] on is seeded, the copies are
    pairwise distinct, and the store only grows. *)
Lemma ctor_loop_spec :
  forall (n i : nat) (param : list Portion_ptr) (w : world),
    funcs w !! func = Some fd ->
    length param = length (ParamInfo fd) ->
    (i + n = length (ParamInfo fd))%nat ->
    Forall (fun info => valid_ptr (portions w) (DefaultValue info)) (ParamInfo fd) ->
    exists param' h',
      CallFunctionObject.ctor_loop ndebug func n (Z.of_nat i) param w
      = Returns param' (set_portions h' w)
      /\ portions w ⊆ h'
      /\ length param' = length param
      /\ (forall j, (j < i)%nat -> param' !! j = param !! j)
      /\ (forall j info, (i <= j)%nat -> ParamInfo fd !! j = Some info ->
            seeded (portions w) h' (DefaultValue info) (param' !! j))
      /\ (forall j j' l, (i <= j < j')%nat ->
            param' !! j = Some (Some l) -> param' !! j' = Some (Some l) -> False).
Proof.
  induction n as [|n IH]; intros i param w Hload Hlen Hi Hvalid.
  - exists param, (portions w). split; [now destruct w|].
    split; [reflexivity|]. split; [reflexivity|]. split; [reflexivity|].
    split.
    + intros j info Hj Hinfo. apply lookup_lt_Some in Hinfo. lia.
    + intros j j' l Hj _ Hj'. apply lookup_lt_Some in Hj'. lia.
  - destruct (lookup_lt_is_Some_2 (ParamInfo fd) i) as [info Hinfo]; [lia|].
    assert (i < length param)%nat as Hi' by lia.
    cbn [CallFunctionObject.ctor_loop].
    destruct (DefaultValue info) as [d|] eqn:Hdefault.
    + (* a default: the slot receives a copy *)
      pose proof (Forall_lookup_1 _ _ _ _ Hvalid Hinfo) as Hd.
      cbv beta in Hd. rewrite Hdefault in Hd. destruct Hd as [v Hv].
      set (l0 := fresh (dom (portions w))).
      set (h1 := <[l0 := v]> (portions w)).
      assert (portions w !! l0 = None) as Hl0 by apply fresh_free.
      assert (portions w ⊆ h1) as Hsub by now apply insert_subseteq.
      rewrite (bind_Returns _ _ _ _ _
                 (ParamDefaultValue_copy ndebug w func fd Hload Hsize
                    i info d v Hinfo Hdefault Hv)).
      rewrite (bind_Returns _ _ _ _ _
                 (array_set_nat param i (Some l0) (set_portions h1 w) Hi')).
      replace (Z.of_nat i + 1) with (Z.of_nat (S i)) by lia.
      destruct (IH (S i) (<[i := Some l0]> param) (set_portions h1 w))
        as (param' & h' & Hrun & Hsub' & Hlen' & Hkept & Hseeded & Hdistinct).
      { exact Hload. }
      { now rewrite length_insert. }
      { lia. }
      { eapply Forall_impl; [exact Hvalid|].
        intros x Hx. exact (valid_ptr_weaken _ _ _ Hsub Hx). }
      assert (param' !! i = Some (Some l0)) as Hslot.
      { rewrite Hkept by lia. now apply list_lookup_insert_eq. }
      exists param', h'. split; [exact Hrun|].
      split; [now transitivity h1|].
      split; [now rewrite Hlen', length_insert|].
      split; [|split].
      * intros j Hj. rewrite Hkept by lia.
        apply list_lookup_insert_ne. lia.
      * intros j info' Hj Hinfo'.
        destruct (decide (j = i)) as [->|Hne].
        -- rewrite Hinfo in Hinfo'. injection Hinfo' as <-.
           unfold seeded. rewrite Hdefault. exists l0.
           split; [exact Hslot|]. split; [exact Hl0|].
           rewrite Hv. apply (lookup_weaken h1); [apply lookup_insert_eq|exact Hsub'].
        -- specialize (Hseeded j info' ltac:(lia) Hinfo').
           unfold seeded in *.
           destruct (DefaultValue info') as [d'|] eqn:Hdefault'; [|exact Hseeded].
           destruct Hseeded as (l & Hl & Hfree & Hcontents).
           exists l. split; [exact Hl|].
           split; [now apply (lookup_weaken_None _ h1)|].
           rewrite Hcontents. cbn [portions set_portions].
           apply lookup_insert_ne. intros ->.
           pose proof (Forall_lookup_1 _ _ _ _ Hvalid Hinfo') as Hd'.
           cbv beta in Hd'. rewrite Hdefault' in Hd'. destruct Hd' as [v' Hv']. congruence.
      * intros j j' l Hj Hl Hl'.
        destruct (decide (j = i)) as [->|Hne].
        -- rewrite Hslot in Hl. injection Hl as <-.
           destruct (lookup_lt_is_Some_2 (ParamInfo fd) j') as [info' Hinfo'].
           { apply lookup_lt_Some in Hl'. rewrite Hlen', length_insert in Hl'. lia. }
           specialize (Hseeded j' info' ltac:(lia) Hinfo').
           unfold seeded in Hseeded.
           destruct (DefaultValue info') as [d'|]; [|congruence].
           destruct Hseeded as (l & Hl & Hfree & _).
           rewrite Hl' in Hl. injection Hl as <-.
           cbn [portions set_portions] in Hfree. unfold h1 in Hfree.
           now rewrite lookup_insert_eq in Hfree.
        -- apply (Hdistinct j j' l); [lia | exact Hl | exact Hl'].
    + (* no default: the slot stays empty *)
      rewrite (bind_Returns _ _ _ _ _
                 (ParamDefaultValue_absent ndebug w func fd Hload Hsize
                    i info Hinfo Hdefault)).
      rewrite (bind_Returns _ _ _ _ _ (array_set_nat param i None w Hi')).
      replace (Z.of_nat i + 1) with (Z.of_nat (S i)) by lia.
      destruct (IH (S i) (<[i := None]> param) w)
        as (param' & h' & Hrun & Hsub' & Hlen' & Hkept & Hseeded & Hdistinct).
      { exact Hload. }
      { now rewrite length_insert. }
      { lia. }
      { exact Hvalid. }
      assert (param' !! i = Some None) as Hslot.
      { rewrite Hkept by lia. now apply list_lookup_insert_eq. }
      exists param', h'. split; [exact Hrun|]. split; [exact Hsub'|].
      split; [now rewrite Hlen', length_insert|].
      split; [|split].
      * intros j Hj. rewrite Hkept by lia.
        apply list_lookup_insert_ne. lia.
      * intros j info' Hj Hinfo'.
        destruct (decide (j = i)) as [->|Hne].
        -- rewrite Hinfo in Hinfo'. injection Hinfo' as <-.
           unfold seeded. now rewrite Hdefault.
        -- apply Hseeded; [lia | exact Hinfo'].
      * intros j j' l Hj Hl Hl'.
        destruct (decide (j = i)) as [->|Hne]; [congruence|].
        apply (Hdistinct j j' l); [lia | exact Hl | exact Hl'].
Qed.

End Constructor.

Lemma ctor_spec (ndebug : bool) (w : world) (name : gString) (func : positive)
    (fd : FuncDescObj) :
  FuncDescObj_inv w func fd ->
  exists param h',
    CallFunctionObject.ctor ndebug name func w
    = Returns {| func_name := name; func_desc_obj := func;
                 param := param; current_param_index := 0 |}
        (set_portions h' w)
    /\ portions w ⊆ h'
    /\ length param = length (ParamInfo fd)
    /\ (forall i info, ParamInfo fd !! i = Some info ->
          seeded (portions w) h' (DefaultValue info) (param !! i))
    /\ (forall i j l, i <> j ->
          param !! i = Some (Some l) -> param !! j = Some (Some l) -> False).
Proof.
  intros (Hload & Hsize & Hvalid).
  destruct (ctor_loop_spec ndebug func fd Hsize (length (ParamInfo fd)) 0%nat
              (replicate (length (ParamInfo fd)) None) w Hload)
    as (param & h' & Hrun & Hsub & Hlen & _ & Hseeded & Hdistinct).
  { apply length_replicate. }
  { reflexivity. }
  { exact Hvalid. }
  exists param, h'. split; [|split; [exact Hsub|split; [|split]]].
  - unfold CallFunctionObject.ctor.
    rewrite (bind_Returns _ _ _ _ _ (NumParams_eq w _ fd Hload)).
    replace (num_of_params fd <? 0) with false by (symmetry; apply Z.ltb_ge; lia).
    rewrite (bind_Returns _ _ w w () eq_refl).
    replace (Z.to_nat (num_of_params fd)) with (length (ParamInfo fd))
      by (rewrite Hsize; lia).
    now rewrite (bind_Returns _ _ _ _ _ Hrun).
  - now rewrite Hlen, length_replicate.
  - intros i info. apply Hseeded. lia.
  - intros i j l Hne Hi Hj.
    destruct (Nat.lt_total i j) as [Hlt|[->|Hlt]]; [|congruence|].
    + apply (Hdistinct i j l); [lia | exact Hi | exact Hj].
    + apply (Hdistinct j i l); [lia | exact Hj | exact Hi].
Qed.

(** The constructor on a descriptor of two parameters that both have a
    default. *)
Lemma ctor_two_defaults (ndebug : bool) (w : world) (name : gString)
    (func : positive) (fd : FuncDescObj) (a b : ParamInfoType) (v1 v2 : Portion) :
  FuncDescObj_inv w func fd ->
  ParamInfo fd = [a; b] ->
  deref (portions w) (DefaultValue a) = Some v1 ->
  deref (portions w) (DefaultValue b) = Some v2 ->
  exists l1 l2 h',
    CallFunctionObject.ctor ndebug name func w
    = Returns {| func_name := name; func_desc_obj := func;
                 param := [Some l1; Some l2]; current_param_index := 0 |}
        (set_portions h' w)
    /\ portions w ⊆ h'
    /\ h' !! l1 = Some v1 /\ h' !! l2 = Some v2 /\ l1 <> l2.
Proof.
  intros Hinv Hab Ha Hb.
  destruct (ctor_spec ndebug w name func fd Hinv)
    as (param & h' & Hrun & Hsub & Hlen & Hseeded & Hdistinct).
  rewrite Hab in Hlen, Hseeded.
  pose proof (Hseeded 0%nat a eq_refl) as H0.
  pose proof (Hseeded 1%nat b eq_refl) as H1.
  unfold seeded in H0, H1.
  destruct (DefaultValue a) as [d1|]; [|discriminate].
  destruct (DefaultValue b) as [d2|]; [|discriminate].
  destruct H0 as (l1 & Hl1 & _ & Hc1). destruct H1 as (l2 & Hl2 & _ & Hc2).
  cbn [deref] in Ha, Hb. rewrite Ha in Hc1. rewrite Hb in Hc2.
  assert (param = [Some l1; Some l2]) as ->.
  { destruct param as [|p1 [|p2 [|p3 rest]]]; try discriminate.
    cbn in Hl1, Hl2. congruence. }
  exists l1, l2, h'. split; [exact Hrun|]. split; [exact Hsub|].
  split; [exact Hc1|]. split; [exact Hc2|].
  intros ->. now apply (Hdistinct 0%nat 1%nat l2).
Qed.

(** C3: the constructor returns a call on the given name and descriptor,
    with the cursor at 0 and one slot per parameter: the slot of a parameter
    without a default is empty; the slot of a parameter with a default holds
    the address of a [Portion] that did not exist before, with the contents
    of the default; no two slots hold the same address; [gerr], the
    descriptors and [invocations] are as before, and no [Portion] that
    existed is changed.  Consequently, on parameters [a; b] with defaults of
    values [v1] and [v2] (1 and 2, say), constructing the call and executing
    it at once calls the entry point, once, with [v1; v2]. *)
Theorem ctor_seeds_defaults (ndebug : bool) (w : world) (name : gString)
    (func : positive) (fd : FuncDescObj) :
  FuncDescObj_inv w func fd ->
  (exists param h',
     CallFunctionObject.ctor ndebug name func w
     = Returns {| func_name := name; func_desc_obj := func;
                  param := param; current_param_index := 0 |}
         (set_portions h' w)
     /\ portions w ⊆ h'
     /\ length param = length (ParamInfo fd)
     /\ (forall i info, ParamInfo fd !! i = Some info ->
           (DefaultValue info = NO_DEFAULT_VALUE -> param !! i = Some None)
           /\ (forall d, DefaultValue info = Some d ->
                 exists l, param !! i = Some (Some l)
                           /\ portions w !! l = None
                           /\ h' !! l = portions w !! d))
     /\ (forall i j l, i <> j ->
           param !! i = Some (Some l) -> param !! j = Some (Some l) -> False))
  /\ (forall a b v1 v2,
        ParamInfo fd = [a; b] ->
        deref (portions w) (DefaultValue a) = Some v1 ->
        deref (portions w) (DefaultValue b) = Some v2 ->
        exists l1 l2 h',
          CallFunctionObject.ctor ndebug name func w
          = Returns {| func_name := name; func_desc_obj := func;
                       param := [Some l1; Some l2]; current_param_index := 0 |}
              (set_portions h' w)
          /\ h' !! l1 = Some v1
          /\ h' !! l2 = Some v2
          /\ call_with_defaults ndebug name func w
             = Returns (function fd [Some l1; Some l2] h').1
                 (set_invocations (invocations w ++ [[Some v1; Some v2]])
                    (set_portions (function fd [Some l1; Some l2] h').2 w))).
Proof.
  intros Hinv. split.
  - destruct (ctor_spec ndebug w name func fd Hinv)
      as (param & h' & Hrun & Hsub & Hlen & Hseeded & Hdistinct).
    exists param, h'. split; [exact Hrun|]. split; [exact Hsub|].
    split; [exact Hlen|]. split; [|exact Hdistinct].
    intros i info Hinfo. specialize (Hseeded i info Hinfo).
    unfold seeded in Hseeded. split.
    + intros Hnone. now rewrite Hnone in Hseeded.
    + intros d Hd. now rewrite Hd in Hseeded.
  - intros a b v1 v2 Hab Ha Hb.
    destruct (ctor_two_defaults ndebug w name func fd a b v1 v2 Hinv Hab Ha Hb)
      as (l1 & l2 & h' & Hrun & Hsub & Hl1 & Hl2 & Hne).
    destruct Hinv as (Hload & Hsize & Hvalid).
    exists l1, l2, h'. split; [exact Hrun|].
    split; [exact Hl1|]. split; [exact Hl2|].
    unfold call_with_defaults. rewrite (bind_Returns _ _ _ _ _ Hrun).
    rewrite (CallFunction_complete ndebug (set_portions h' w)
               {| func_name := name; func_desc_obj := func;
                  param := [Some l1; Some l2]; current_param_index := 0 |}
               fd Hload Hsize).
    + rewrite call_entry_point_eq. cbn. now rewrite Hl1, Hl2.
    + cbn. now rewrite Hab.
    + cbn. intros Hin.
      repeat (apply elem_of_cons in Hin as [Hin|Hin]; [discriminate|]).
      now apply elem_of_nil in Hin.
Qed.

Lemma world_ab_inv : FuncDescObj_inv world_ab 1 sig_ab.
Proof.
  split; [reflexivity|]. split; [reflexivity|].
  repeat constructor; eexists; reflexivity.
Qed.

(** C3 on [sig_ab]: the entry point is called with [1; 2]. *)
Lemma ctor_seeds_defaults_witness :
  exists l1 l2 h',
    CallFunctionObject.ctor false "f" 1 world_ab
    = Returns {| func_name := "f"; func_desc_obj := 1%positive;
                 param := [Some l1; Some l2]; current_param_index := 0 |}
        (set_portions h' world_ab)
    /\ h' !! l1 = Some (numerical_Portion porINTEGER 1)
    /\ h' !! l2 = Some (numerical_Portion porINTEGER 2)
    /\ call_with_defaults false "f" 1 world_ab
       = Returns (function sig_ab [Some l1; Some l2] h').1
           (set_invocations
              (invocations world_ab
               ++ [[Some (numerical_Portion porINTEGER 1);
                    Some (numerical_Portion porINTEGER 2)]])
              (set_portions (function sig_ab [Some l1; Some l2] h').2 world_ab)).
Proof.
  destruct (ctor_seeds_defaults false world_ab "f" 1 sig_ab world_ab_inv)
    as [_ Hab].
  apply (Hab {| Name := "a"; Type_ := porINTEGER; DefaultValue := Some 1%positive |}
             {| Name := "b"; Type_ := porINTEGER; DefaultValue := Some 2%positive |});
    reflexivity.
Defined.

(** ** Calls without parameters *)

(** C10: on a descriptor without parameters, the constructor returns a call
    without slots and leaves the store as it is; [CallFunction] on a call of
    such a descriptor writes no diagnostic and calls the entry point, once;
    a call executed as constructed calls it with the empty sequence of
    arguments and returns what the entry point returns. *)
Theorem CallFunction_without_parameters (ndebug : bool) (w : world)
    (name : gString) (func : positive) (fd : FuncDescObj) :
  funcs w !! func = Some fd ->
  num_of_params fd = 0 ->
  CallFunctionObject.ctor ndebug name func w
  = Returns {| func_name := name; func_desc_obj := func;
               param := []; current_param_index := 0 |} w
  /\ (forall c, func_desc_obj c = func ->
        CallFunctionObject.CallFunction ndebug c w
        = Returns (function fd (param c) (portions w)).1
            (set_invocations
               (invocations w ++ [map (deref (portions w)) (param c)])
               (set_portions (function fd (param c) (portions w)).2 w)))
  /\ call_with_defaults ndebug name func w
     = Returns (function fd [] (portions w)).1
         (set_invocations (invocations w ++ [[]])
            (set_portions (function fd [] (portions w)).2 w))
  /\ gerr (set_invocations (invocations w ++ [[]])
             (set_portions (function fd [] (portions w)).2 w))
     = gerr w.
Proof.
  intros Hload Hzero.
  assert (CallFunctionObject.ctor ndebug name func w
          = Returns {| func_name := name; func_desc_obj := func;
                       param := []; current_param_index := 0 |} w) as Hctor.
  { unfold CallFunctionObject.ctor.
    rewrite (bind_Returns _ _ _ _ _ (NumParams_eq w _ fd Hload)), Hzero.
    reflexivity. }
  assert (forall c, func_desc_obj c = func ->
            CallFunctionObject.CallFunction ndebug c w
            = Returns (function fd (param c) (portions w)).1
                (set_invocations
                   (invocations w ++ [map (deref (portions w)) (param c)])
                   (set_portions (function fd (param c) (portions w)).2 w)))
    as Hcall.
  { intros c <-. unfold CallFunctionObject.CallFunction.
    rewrite (bind_Returns _ _ _ _ _ (NumParams_eq w _ fd Hload)), Hzero.
    rewrite (bind_Returns _ _ w w true eq_refl).
    unfold FuncDescObj.CallFunction.
    rewrite (bind_Returns _ _ _ _ _ (load_FuncDescObj_eq w _ fd Hload)).
    apply call_entry_point_eq. }
  split; [exact Hctor|]. split; [exact Hcall|]. split; [|reflexivity].
  unfold call_with_defaults. rewrite (bind_Returns _ _ _ _ _ Hctor).
  now rewrite Hcall.
Qed.

(** C10 on [sig_nullary], whose entry point returns the null pointer when
    it has no argument. *)
Lemma CallFunction_without_parameters_witness :
  call_with_defaults false "g" 1 world_nullary
  = Returns None (set_invocations [[]] world_nullary).
Proof.
  destruct (CallFunction_without_parameters false world_nullary "g" 1 sig_nullary)
    as (_ & _ & Hrun & _).
  - reflexivity.
  - reflexivity.
  - rewrite Hrun. reflexivity.
Defined.

(** ** Binding the current parameter *)

Lemma SetCurrParam_in_range (w : world) (c : CallFunctionObject)
    (fd : FuncDescObj) (new_param : Portion_ptr) (k : nat) (old : Portion_ptr) :
  funcs w !! func_desc_obj c = Some fd ->
  current_param_index c = Z.of_nat k ->
  Z.of_nat k < num_of_params fd ->
  param c !! k = Some old ->
  valid_ptr (portions w) old ->
  CallFunctionObject.SetCurrParam c new_param w
  = Returns {| func_name := func_name c;
               func_desc_obj := func_desc_obj c;
               param := <[k := new_param]> (param c);
               current_param_index := Z.of_nat k + 1 |}
      (released old w).
Proof.
  intros Hload Hcursor Hk Hold Hvalid. unfold CallFunctionObject.SetCurrParam.
  rewrite (bind_Returns _ _ _ _ _ (NumParams_eq w _ fd Hload)), Hcursor.
  replace (Z.of_nat k <? num_of_params fd) with true
    by (symmetry; apply Z.ltb_lt; lia).
  rewrite (bind_Returns _ _ _ _ _ (array_get_nat _ _ _ w Hold)).
  pose proof (lookup_lt_Some _ _ _ Hold) as Hlt.
  destruct old as [l|].
  - destruct Hvalid as [v Hv].
    rewrite decide_True by discriminate.
    assert (Portion_delete (Some l) w
            = Returns () (set_portions (delete l (portions w)) w)) as Hdelete.
    { unfold Portion_delete. now rewrite Hv. }
    rewrite (bind_Returns _ _ _ _ _ Hdelete).
    now rewrite (bind_Returns _ _ _ _ _ (array_set_nat _ _ _ _ Hlt)).
  - rewrite decide_False by (intros H; now apply H).
    rewrite (bind_Returns _ _ w w () eq_refl).
    now rewrite (bind_Returns _ _ _ _ _ (array_set_nat _ _ _ _ Hlt)).
Qed.

(** With a negative cursor [SetCurrParam] passes its guard and reads
    [param] before its first slot. *)
Lemma SetCurrParam_negative_cursor (w : world) (c : CallFunctionObject)
    (fd : FuncDescObj) (new_param : Portion_ptr) :
  funcs w !! func_desc_obj c = Some fd ->
  0 <= num_of_params fd ->
  current_param_index c < 0 ->
  CallFunctionObject.SetCurrParam c new_param w = Undefined.
Proof.
  intros Hload Hsize Hcursor. unfold CallFunctionObject.SetCurrParam.
  rewrite (bind_Returns _ _ _ _ _ (NumParams_eq w _ fd Hload)).
  replace (current_param_index c <? num_of_params fd) with true
    by (symmetry; apply Z.ltb_lt; lia).
  now rewrite (bind_Undefined _ _ _ (array_get_negative _ _ w Hcursor)).
Qed.

(** C4, for a cursor that is not negative: with the cursor on a slot
    ([0 <= cursor < number of parameters]), [SetCurrParam] deletes the [Portion] that the slot holds,
    if it holds one, stores the new pointer in the slot, and moves the cursor
    by one; the other slots are as before, and so is every [Portion] but the
    deleted one.  In particular, on parameters [a; b] with defaults of values
    [v1] and [v2] (1 and 2, say), binding only ["b"] by name to a new value
    [v] (5, say) and executing calls the entry point, once, with [v1; v]. *)
Theorem SetCurrParam_binds_current (ndebug : bool) (w : world)
    (func : positive) (fd : FuncDescObj) :
  FuncDescObj_inv w func fd ->
  (forall c new_param,
     func_desc_obj c = func ->
     length (param c) = length (ParamInfo fd) ->
     Forall (valid_ptr (portions w)) (param c) ->
     0 <= current_param_index c < num_of_params fd ->
     exists old,
       param c !! Z.to_nat (current_param_index c) = Some old
       /\ CallFunctionObject.SetCurrParam c new_param w
          = Returns {| func_name := func_name c;
                       func_desc_obj := func_desc_obj c;
                       param := <[Z.to_nat (current_param_index c) := new_param]>
                                  (param c);
                       current_param_index := current_param_index c + 1 |}
              (released old w)
       /\ <[Z.to_nat (current_param_index c) := new_param]> (param c)
            !! Z.to_nat (current_param_index c) = Some new_param
       /\ (forall j, j <> Z.to_nat (current_param_index c) ->
             <[Z.to_nat (current_param_index c) := new_param]> (param c) !! j
             = param c !! j)
       /\ (forall l, old = Some l -> portions (released old w) !! l = None)
       /\ (forall l, old <> Some l ->
             portions (released old w) !! l = portions w !! l))
  /\ (forall name a b v1 v2 v,
        ParamInfo fd = [a; b] ->
        Name a = "a"%string -> Name b = "b"%string ->
        deref (portions w) (DefaultValue a) = Some v1 ->
        deref (portions w) (DefaultValue b) = Some v2 ->
        exists l1 l h,
          h !! l1 = Some v1
          /\ h !! l = Some v
          /\ call_binding_b ndebug name func v w
             = Returns (function fd [Some l1; Some l] h).1
                 (set_invocations (invocations w ++ [[Some v1; Some v]])
                    (set_portions (function fd [Some l1; Some l] h).2 w))).
Proof.
  intros Hinv. split.
  - destruct Hinv as (Hload & Hsize & _).
    intros c new_param <- Hslots Hvalid Hcursor.
    set (k := Z.to_nat (current_param_index c)).
    assert (current_param_index c = Z.of_nat k) as Hk by (unfold k; lia).
    destruct (lookup_lt_is_Some_2 (param c) k) as [old Hold]; [lia|].
    exists old. split; [exact Hold|].
    split; [|split; [|split; [|split]]].
    + rewrite Hk at 1.
      apply (SetCurrParam_in_range w c fd new_param k old Hload Hk);
        [lia | exact Hold | exact (Forall_lookup_1 _ _ _ _ Hvalid Hold)].
    + apply list_lookup_insert_eq. now apply lookup_lt_Some in Hold.
    + intros j Hj. apply list_lookup_insert_ne. congruence.
    + intros l ->. apply lookup_delete_eq.
    + intros l Hl. destruct old as [l'|]; [|reflexivity].
      apply lookup_delete_ne. congruence.
  - intros name a b v1 v2 v Hab Ha Hb Hv1 Hv2.
    destruct (ctor_two_defaults ndebug w name func fd a b v1 v2 Hinv Hab Hv1 Hv2)
      as (l1 & l2 & h' & Hctor & Hsub & Hl1 & Hl2 & Hne).
    destruct Hinv as (Hload & Hsize & _).
    set (call := {| func_name := name; func_desc_obj := func;
                    param := [Some l1; Some l2]; current_param_index := 0 |}) in *.
    set (w1 := set_portions h' w) in *.
    set (l := fresh (dom h')).
    set (h2 := <[l := v]> h').
    set (w2 := set_portions h2 w1).
    assert (h' !! l = None) as Hl by apply fresh_free.
    assert (l <> l1) as Hll1 by (intros E; rewrite E in Hl; congruence).
    assert (l <> l2) as Hll2 by (intros E; rewrite E in Hl; congruence).
    assert (CallFunctionObject.FindParamName call "b" w1 = Returns 1 w1) as Hfind.
    { apply (FindParamName_first w1 func fd Hload Hsize "b" 1%nat b).
      - now rewrite Hab.
      - exact Hb.
      - intros j q Hj Hq. assert (j = 0)%nat as -> by lia.
        rewrite Hab in Hq. injection Hq as <-. rewrite Ha. discriminate. }
    assert (CallFunctionObject.SetCurrParam
              (CallFunctionObject.SetCurrParamIndex call 1) (Some l) w2
            = Returns {| func_name := name; func_desc_obj := func;
                         param := [Some l1; Some l]; current_param_index := 2 |}
                (set_portions (delete l2 h2) w2)) as Hbind.
    { rewrite (SetCurrParam_in_range w2
                 (CallFunctionObject.SetCurrParamIndex call 1) fd (Some l)
                 1%nat (Some l2) Hload eq_refl);
        [reflexivity | rewrite Hsize, Hab; cbn; lia | reflexivity |].
      exists v2. cbn. unfold h2. now rewrite lookup_insert_ne. }
    exists l1, l, (delete l2 h2).
    assert (delete l2 h2 !! l1 = Some v1) as Hl1'.
    { rewrite lookup_delete_ne by congruence.
      unfold h2. now rewrite lookup_insert_ne. }
    assert (delete l2 h2 !! l = Some v) as Hl'.
    { rewrite lookup_delete_ne by congruence. apply lookup_insert_eq. }
    split; [exact Hl1'|]. split; [exact Hl'|].
    unfold call_binding_b.
    rewrite (bind_Returns _ _ _ _ _ Hctor).
    rewrite (bind_Returns _ _ _ _ _ Hfind).
    rewrite (bind_Returns _ _ w1 w2 (Some l) eq_refl).
    rewrite (bind_Returns _ _ _ _ _ Hbind).
    rewrite (CallFunction_complete ndebug (set_portions (delete l2 h2) w2)
               {| func_name := name; func_desc_obj := func;
                  param := [Some l1; Some l]; current_param_index := 2 |}
               fd Hload Hsize).
    + rewrite call_entry_point_eq. cbn. now rewrite Hl1', Hl'.
    + cbn. now rewrite Hab.
    + cbn. intros Hin.
      repeat (apply elem_of_cons in Hin as [Hin|Hin]; [discriminate|]).
      now apply elem_of_nil in Hin.
Qed.

Lemma world_ab_call_inv : FuncDescObj_inv world_ab_call 1 sig_ab.
Proof.
  split; [reflexivity|]. split; [reflexivity|].
  repeat constructor; eexists; reflexivity.
Qed.

(** C4 on [call_ab 1]: binding the value at address 5 deletes the copy at 4
    and moves the cursor to 2. *)
Lemma SetCurrParam_binds_current_witness :
  CallFunctionObject.SetCurrParam (call_ab 1) (Some 5%positive) world_ab_call
  = Returns {| func_name := "f"; func_desc_obj := 1%positive;
               param := [Some 3%positive; Some 5%positive];
               current_param_index := 2 |}
      (set_portions (delete 4%positive (portions world_ab_call)) world_ab_call).
Proof.
  destruct (SetCurrParam_binds_current false world_ab_call 1 sig_ab
              world_ab_call_inv) as [Hbind _].
  destruct (Hbind (call_ab 1) (Some 5%positive)) as (old & Hold & Hrun & _).
  - reflexivity.
  - reflexivity.
  - repeat constructor; eexists; reflexivity.
  - simpl. lia.
  - rewrite Hrun. cbn in Hold. injection Hold as <-. reflexivity.
Defined.

(** C4 does not hold for a negative cursor, which passes the guard
    [current_param_index < NumParams()]: on [sig_ab], [FindParamName] answers
    [-1] for the undeclared name ["c"], [SetCurrParamIndex] accepts it, and
    [SetCurrParam] then reads [param[ -1 ]], before the first slot: it stores
    the value in no slot. *)
Lemma SetCurrParam_cursor_below_range :
  CallFunctionObject_inv world_ab_call (call_ab 0) sig_ab
  /\ CallFunctionObject.FindParamName (call_ab 0) "c" world_ab_call
     = Returns (-1) world_ab_call
  /\ CallFunctionObject.SetCurrParamIndex (call_ab 0) (-1) = call_ab (-1)
  /\ current_param_index (call_ab (-1)) < num_of_params sig_ab
  /\ CallFunctionObject.SetCurrParam (call_ab (-1)) (Some 5%positive) world_ab_call
     = Undefined
  /\ ~ (exists c' w',
          CallFunctionObject.SetCurrParam (call_ab (-1)) (Some 5%positive)
            world_ab_call = Returns c' w'
          /\ current_param_index c' = current_param_index (call_ab (-1)) + 1).
Proof.
  split; [|split; [|split; [|split; [|split]]]].
  - split; [exact world_ab_call_inv|]. split; [reflexivity|].
    repeat constructor; eexists; reflexivity.
  - reflexivity.
  - reflexivity.
  - reflexivity.
  - now apply SetCurrParam_negative_cursor with sig_ab.
  - intros (c' & w' & Hrun & _). discriminate Hrun.
Qed.

(** * Further properties of the two classes *)

Lemma bind_Aborted {A B : Type} (m : M A) (k : A -> M B) (w w' : world) :
  m w = Aborted w' -> (m ≫= k) w = Aborted w'.
Proof. intros E. unfold mbind, M_bind. now rewrite E. Qed.

Lemma c_assert_fails (w : world) : c_assert false false w = Aborted w.
Proof. reflexivity. Qed.

Lemma index_out_of_range (index n : Z) :
  ~ (0 <= index < n) -> (0 <=? index) && (index <? n) = false.
Proof.
  intros Hout. apply andb_false_iff.
  destruct (Z.leb_spec 0 index); [right; apply Z.ltb_ge; lia | now left].
Qed.

Lemma array_get_out_of_range {A : Type} (a : list A) (i : Z) (w : world) :
  ~ (0 <= i < Z.of_nat (length a)) -> array_get a i w = Undefined.
Proof.
  intros Hout. unfold array_get.
  destruct (Z.leb_spec 0 i) as [Hle|]; [|reflexivity].
  now rewrite lookup_ge_None_2 by lia.
Qed.

Lemma array_set_out_of_range {A : Type} (a : list A) (i : Z) (x : A) (w : world) :
  ~ (0 <= i < Z.of_nat (length a)) -> array_set a i x w = Undefined.
Proof.
  intros Hout. unfold array_set. now rewrite index_out_of_range.
Qed.

(** ** The constructor of [FuncDescObj] *)

(** X1: for a size that is not negative, the constructor returns in every
    build the address of a new descriptor, one at which there was none: it
    has the entry point and the number of parameters given, and an array of
    that many slots; [NumParams] then returns the size; the descriptors that
    existed, the values and [gerr] are as before.  For a negative size, a
    build without [NDEBUG] stops at the [assert] before anything is
    allocated. *)
Theorem FuncDescObj_ctor_spec (ndebug : bool) (w : world) (f : entry_point)
    (size : Z) :
  (0 <= size ->
   exists this fd,
     FuncDescObj.ctor ndebug f size w
     = Returns this (set_funcs (<[this := fd]> (funcs w)) w)
     /\ funcs w !! this = None
     /\ function fd = f
     /\ num_of_params fd = size
     /\ Z.of_nat (length (ParamInfo fd)) = size
     /\ FuncDescObj.NumParams this (set_funcs (<[this := fd]> (funcs w)) w)
        = Returns size (set_funcs (<[this := fd]> (funcs w)) w)
     /\ forall other g,
          funcs w !! other = Some g ->
          funcs (set_funcs (<[this := fd]> (funcs w)) w) !! other = Some g)
  /\ (size < 0 -> FuncDescObj.ctor false f size w = Aborted w).
Proof.
  split.
  - intros Hsize.
    set (this := fresh (dom (funcs w))).
    set (fd := {| function := f; num_of_params := size;
                  ParamInfo := replicate (Z.to_nat size) ParamInfoType_empty |}).
    assert (funcs w !! this = None) as Hfree
      by apply not_elem_of_dom, is_fresh.
    exists this, fd. split; [|split; [exact Hfree|split; [reflexivity|]]].
    + unfold FuncDescObj.ctor.
      replace (0 <=? size) with true by (symmetry; apply Z.leb_le; lia).
      rewrite (bind_Returns _ _ _ _ _ (c_assert_holds ndebug w)).
      now replace (size <? 0) with false by (symmetry; apply Z.ltb_ge; lia).
    + split; [reflexivity|]. split; [cbn; rewrite length_replicate; lia|].
      split.
      * apply (NumParams_eq (set_funcs (<[this := fd]> (funcs w)) w) this fd).
        cbn. apply lookup_insert_eq.
      * intros other g Hother. cbn. rewrite lookup_insert_ne; [exact Hother|].
        intros ->. congruence.
  - intros Hneg. unfold FuncDescObj.ctor.
    replace (0 <=? size) with false by (symmetry; apply Z.leb_gt; lia).
    reflexivity.
Qed.

(** ** Bounds of the accessors *)

(** X2: with an index outside [0 <= index < num_of_params], [ParamName],
    [ParamType] and [ParamDefaultValue] stop at their [assert] in a build
    without [NDEBUG], leaving the store as it is and writing nothing to
    [gerr]; in a build with [NDEBUG] they read [ParamInfo] out of its
    bounds. *)
Theorem accessors_out_of_range (w : world) (this : positive) (fd : FuncDescObj)
    (index : Z) :
  funcs w !! this = Some fd ->
  num_of_params fd = Z.of_nat (length (ParamInfo fd)) ->
  ~ (0 <= index < num_of_params fd) ->
  (FuncDescObj.ParamName false this index w = Aborted w
   /\ FuncDescObj.ParamType false this index w = Aborted w
   /\ FuncDescObj.ParamDefaultValue false this index w = Aborted w)
  /\ (FuncDescObj.ParamName true this index w = Undefined
      /\ FuncDescObj.ParamType true this index w = Undefined
      /\ FuncDescObj.ParamDefaultValue true this index w = Undefined).
Proof.
  intros Hload Hsize Hout.
  pose proof (index_out_of_range _ _ Hout) as Hcheck.
  assert (array_get (ParamInfo fd) index w = Undefined) as Hread.
  { apply array_get_out_of_range. now rewrite <- Hsize. }
  split; (split; [|split]).
  - unfold FuncDescObj.ParamName.
    rewrite (bind_Returns _ _ _ _ _ (load_FuncDescObj_eq w this fd Hload)), Hcheck.
    reflexivity.
  - unfold FuncDescObj.ParamType.
    rewrite (bind_Returns _ _ _ _ _ (load_FuncDescObj_eq w this fd Hload)), Hcheck.
    reflexivity.
  - unfold FuncDescObj.ParamDefaultValue.
    rewrite (bind_Returns _ _ _ _ _ (load_FuncDescObj_eq w this fd Hload)), Hcheck.
    reflexivity.
  - unfold FuncDescObj.ParamName.
    rewrite (bind_Returns _ _ _ _ _ (load_FuncDescObj_eq w this fd Hload)).
    rewrite (bind_Returns _ _ _ _ _ (c_assert_NDEBUG _ w)).
    now rewrite (bind_Undefined _ _ _ Hread).
  - unfold FuncDescObj.ParamType.
    rewrite (bind_Returns _ _ _ _ _ (load_FuncDescObj_eq w this fd Hload)).
    rewrite (bind_Returns _ _ _ _ _ (c_assert_NDEBUG _ w)).
    now rewrite (bind_Undefined _ _ _ Hread).
  - unfold FuncDescObj.ParamDefaultValue.
    rewrite (bind_Returns _ _ _ _ _ (load_FuncDescObj_eq w this fd Hload)).
    rewrite (bind_Returns _ _ _ _ _ (c_assert_NDEBUG _ w)).
    now rewrite (bind_Undefined _ _ _ Hread).
Qed.

(** X2 on [sig_xyz], at the index 3 that [FindParamName] never returns. *)
Lemma accessors_out_of_range_witness :
  FuncDescObj.ParamName false 1 3 world_xyz = Aborted world_xyz
  /\ FuncDescObj.ParamName true 1 3 world_xyz = Undefined.
Proof.
  destruct (accessors_out_of_range world_xyz 1 sig_xyz 3)
    as ((Hname & _) & (Hname' & _)).
  - reflexivity.
  - reflexivity.
  - simpl. lia.
  - split; assumption.
Defined.

Lemma SetParamInfo_out_of_range_lemma (w : world) (this : positive)
    (fd : FuncDescObj) (index : Z) (name : gString) (type : PortionType)
    (default_value : Portion_ptr) :
  funcs w !! this = Some fd ->
  num_of_params fd = Z.of_nat (length (ParamInfo fd)) ->
  ~ (0 <= index < num_of_params fd) ->
  FuncDescObj.SetParamInfo false this index name type default_value w = Aborted w
  /\ FuncDescObj.SetParamInfo true this index name type default_value w = Undefined.
Proof.
  intros Hload Hsize Hout.
  pose proof (index_out_of_range _ _ Hout) as Hcheck.
  split.
  - unfold FuncDescObj.SetParamInfo.
    rewrite (bind_Returns _ _ _ _ _ (load_FuncDescObj_eq w this fd Hload)), Hcheck.
    reflexivity.
  - unfold FuncDescObj.SetParamInfo.
    rewrite (bind_Returns _ _ _ _ _ (load_FuncDescObj_eq w this fd Hload)).
    rewrite (bind_Returns _ _ _ _ _ (c_assert_NDEBUG _ w)).
    destruct (SetParamInfo_loop_returns w fd name (length (ParamInfo fd)) 0%nat)
      as [b Hb]; [lia|].
    replace (Z.to_nat (num_of_params fd)) with (length (ParamInfo fd))
      by (rewrite Hsize; lia).
    rewrite (bind_Returns _ _ _ _ _ Hb).
    rewrite (bind_Returns _ _ w w () eq_refl).
    rewrite (bind_Undefined _ _ _ (array_set_out_of_range _ _ _ w
                                     ltac:(rewrite <- Hsize; exact Hout))).
    reflexivity.
Qed.

(** X3: with an index outside [0 <= index < num_of_params], [SetParamInfo]
    stops at its first [assert] in a build without [NDEBUG]: nothing is
    written, not even the diagnostic of a repeated name; in a build with
    [NDEBUG] it writes [ParamInfo] out of its bounds. *)
Theorem SetParamInfo_out_of_range (w : world) (this : positive)
    (fd : FuncDescObj) (index : Z) (name : gString) (type : PortionType)
    (default_value : Portion_ptr) :
  funcs w !! this = Some fd ->
  num_of_params fd = Z.of_nat (length (ParamInfo fd)) ->
  ~ (0 <= index < num_of_params fd) ->
  FuncDescObj.SetParamInfo false this index name type default_value w = Aborted w
  /\ FuncDescObj.SetParamInfo true this index name type default_value w = Undefined.
Proof. apply SetParamInfo_out_of_range_lemma. Qed.

(** X3 on [sig_xyz], at index 3. *)
Lemma SetParamInfo_out_of_range_witness :
  FuncDescObj.SetParamInfo false 1 3 "x" porINTEGER None world_xyz
  = Aborted world_xyz
  /\ FuncDescObj.SetParamInfo true 1 3 "x" porINTEGER None world_xyz = Undefined.
Proof.
  apply (SetParamInfo_out_of_range world_xyz 1 sig_xyz 3 "x" porINTEGER None).
  - reflexivity.
  - reflexivity.
  - simpl. lia.
Defined.

(** X1 on the empty store: a descriptor of two parameters at address 1. *)
Lemma FuncDescObj_ctor_spec_witness :
  exists this fd,
    FuncDescObj.ctor false first_argument 2 empty_world
    = Returns this (set_funcs (<[this := fd]> (funcs empty_world)) empty_world)
    /\ funcs empty_world !! this = None
    /\ num_of_params fd = 2.
Proof.
  destruct (FuncDescObj_ctor_spec false empty_world first_argument 2)
    as [Hctor _].
  destruct Hctor as (this & fd & Hrun & Hfree & _ & Hsize & _); [lia|].
  exists this, fd. repeat split; assumption.
Defined.

(** ** Declaring and reading back *)

(** In a build without [NDEBUG] a declaration under a name that a slot
    bears stops at the [assert], whatever the valid index. *)
Lemma SetParamInfo_debug_repeated (w : world) (this : positive)
    (fd : FuncDescObj) (index k : nat) (info : ParamInfoType) (name : gString)
    (type : PortionType) (default_value : Portion_ptr) :
  funcs w !! this = Some fd ->
  num_of_params fd = Z.of_nat (length (ParamInfo fd)) ->
  (index < length (ParamInfo fd))%nat ->
  ParamInfo fd !! k = Some info -> Name info = name ->
  FuncDescObj.SetParamInfo false this (Z.of_nat index) name type default_value w
  = Aborted (set_gerr (gerr w +:+ DuplicateParameterName name) w).
Proof.
  intros Hload Hsize Hindex Hk Hname.
  pose proof (lookup_lt_Some _ _ _ Hk) as Hklt.
  unfold FuncDescObj.SetParamInfo.
  rewrite (bind_Returns _ _ _ _ _ (load_FuncDescObj_eq w this fd Hload)).
  rewrite (index_in_range index _ _ Hsize Hindex).
  rewrite (bind_Returns _ _ _ _ _ (c_assert_holds false w)).
  replace (Z.to_nat (num_of_params fd)) with (length (ParamInfo fd))
    by (rewrite Hsize; lia).
  rewrite (bind_Returns _ _ _ _ _
             (SetParamInfo_loop_found w fd name k info Hk Hname
                (length (ParamInfo fd)) 0%nat ltac:(lia))).
  reflexivity.
Qed.

(** A declaration that goes through, in either build. *)
Lemma SetParamInfo_goes_through (ndebug : bool) (w : world) (this : positive)
    (fd : FuncDescObj) (index : nat) (name : gString) (type : PortionType)
    (default_value : Portion_ptr) :
  funcs w !! this = Some fd ->
  num_of_params fd = Z.of_nat (length (ParamInfo fd)) ->
  (index < length (ParamInfo fd))%nat ->
  ndebug = true \/ (forall info, info ∈ ParamInfo fd -> Name info <> name) ->
  FuncDescObj.SetParamInfo ndebug this (Z.of_nat index) name type default_value w
  = Returns () (declared w this fd index name type default_value).
Proof.
  intros Hload Hsize Hindex [-> | Hnew].
  - now apply SetParamInfo_NDEBUG.
  - now apply SetParamInfo_new_name.
Qed.

(** X4: a declaration at a valid index, in a build with [NDEBUG] or under a
    name that no slot bears, returns without a diagnostic; [ParamName] and
    [ParamType] at that index then return the name and the type declared,
    and the descriptor holds the default pointer given; at every other index
    they return what they returned before; [NumParams] is unchanged; no
    [Portion] is created or deleted, so a default that the slot held before
    is still in the store. *)
Theorem SetParamInfo_round_trip (ndebug : bool) (w : world) (this : positive)
    (fd : FuncDescObj) (index : nat) (name : gString) (type : PortionType)
    (default_value : Portion_ptr) :
  funcs w !! this = Some fd ->
  num_of_params fd = Z.of_nat (length (ParamInfo fd)) ->
  (index < length (ParamInfo fd))%nat ->
  ndebug = true \/ (forall info, info ∈ ParamInfo fd -> Name info <> name) ->
  exists w' fd',
    FuncDescObj.SetParamInfo ndebug this (Z.of_nat index) name type default_value w
    = Returns () w'
    /\ funcs w' !! this = Some fd'
    /\ ParamInfo fd' !! index
       = Some {| Name := name; Type_ := type; DefaultValue := default_value |}
    /\ FuncDescObj.ParamName ndebug this (Z.of_nat index) w' = Returns name w'
    /\ FuncDescObj.ParamType ndebug this (Z.of_nat index) w' = Returns type w'
    /\ FuncDescObj.NumParams this w' = Returns (num_of_params fd) w'
    /\ (forall j info, j <> index -> ParamInfo fd !! j = Some info ->
          FuncDescObj.ParamName ndebug this (Z.of_nat j) w'
          = Returns (Name info) w'
          /\ FuncDescObj.ParamType ndebug this (Z.of_nat j) w'
             = Returns (Type_ info) w')
    /\ portions w' = portions w
    /\ gerr w' = gerr w.
Proof.
  intros Hload Hsize Hindex Hok.
  set (new := {| Name := name; Type_ := type; DefaultValue := default_value |}).
  set (fd' := {| function := function fd; num_of_params := num_of_params fd;
                 ParamInfo := <[index := new]> (ParamInfo fd) |}).
  set (w' := declared w this fd index name type default_value).
  assert (funcs w' !! this = Some fd') as Hload' by apply lookup_insert_eq.
  assert (num_of_params fd' = Z.of_nat (length (ParamInfo fd'))) as Hsize'
    by (cbn; now rewrite length_insert).
  assert (ParamInfo fd' !! index = Some new) as Hnew
    by now apply list_lookup_insert_eq.
  exists w', fd'.
  split; [now apply SetParamInfo_goes_through|].
  split; [exact Hload'|]. split; [exact Hnew|].
  split; [exact (ParamName_eq ndebug w' this fd' Hload' Hsize' index new Hnew)|].
  split; [exact (ParamType_eq ndebug w' this fd' Hload' Hsize' index new Hnew)|].
  split; [exact (NumParams_eq w' this fd' Hload')|].
  split; [|split; reflexivity].
  intros j info Hj Hinfo.
  assert (ParamInfo fd' !! j = Some info) as Hinfo'.
  { cbn. rewrite list_lookup_insert_ne by congruence. exact Hinfo. }
  split.
  - exact (ParamName_eq ndebug w' this fd' Hload' Hsize' j info Hinfo').
  - exact (ParamType_eq ndebug w' this fd' Hload' Hsize' j info Hinfo').
Qed.

(** X4 on [sig_xyz]: declaring ["t"] of type [porRATIONAL] at index 1. *)
Lemma SetParamInfo_round_trip_witness :
  exists w' fd',
    FuncDescObj.SetParamInfo false 1 1 "t" porRATIONAL None world_xyz
    = Returns () w'
    /\ funcs w' !! 1%positive = Some fd'
    /\ FuncDescObj.ParamName false 1 1 w' = Returns "t"%string w'
    /\ FuncDescObj.ParamType false 1 1 w' = Returns porRATIONAL w'.
Proof.
  destruct (SetParamInfo_round_trip false world_xyz 1 sig_xyz 1%nat "t"
              porRATIONAL None)
    as (w' & fd' & Hrun & Hload & _ & Hname & Htype & _).
  - reflexivity.
  - reflexivity.
  - simpl. lia.
  - right. intros info Hin. vm_compute in Hin.
    repeat (apply elem_of_cons in Hin as [-> | Hin]; [discriminate|]).
    now apply elem_of_nil in Hin.
  - exists w', fd'. repeat split; assumption.
Defined.

(** X5: in a build without [NDEBUG], a declaration returns only for a valid
    index and a name that no slot of the descriptor bears, the slot written
    included; the descriptor then bears the name at that index and nowhere
    else. *)
Theorem SetParamInfo_debug_unique_name (w w' : world) (this : positive)
    (fd : FuncDescObj) (index : Z) (name : gString) (type : PortionType)
    (default_value : Portion_ptr) :
  funcs w !! this = Some fd ->
  num_of_params fd = Z.of_nat (length (ParamInfo fd)) ->
  FuncDescObj.SetParamInfo false this index name type default_value w
  = Returns () w' ->
  0 <= index < num_of_params fd
  /\ (forall info, info ∈ ParamInfo fd -> Name info <> name)
  /\ w' = declared w this fd (Z.to_nat index) name type default_value
  /\ exists fd',
       funcs w' !! this = Some fd'
       /\ forall j info, ParamInfo fd' !! j = Some info ->
            (Name info = name <-> j = Z.to_nat index).
Proof.
  intros Hload Hsize Hrun.
  destruct (decide (0 <= index < num_of_params fd)) as [Hin|Hout].
  2:{ destruct (SetParamInfo_out_of_range_lemma w this fd index name type
                  default_value Hload Hsize Hout) as [Habort _].
      rewrite Habort in Hrun. discriminate. }
  assert (index = Z.of_nat (Z.to_nat index)) as Hindex by lia.
  assert (Z.to_nat index < length (ParamInfo fd))%nat as Hlt by lia.
  destruct (decide (Exists (fun info => Name info = name) (ParamInfo fd)))
    as [Hex|Hnew].
  - apply Exists_exists in Hex as (info & Hinfo & Hname).
    apply list_elem_of_lookup_1 in Hinfo as [k Hk].
    rewrite Hindex in Hrun.
    rewrite (SetParamInfo_debug_repeated w this fd _ k info name type
               default_value Hload Hsize Hlt Hk Hname) in Hrun.
    discriminate.
  - assert (forall info, info ∈ ParamInfo fd -> Name info <> name) as Hnew'.
    { intros info Hinfo Hname. apply Hnew, Exists_exists. eauto. }
    rewrite Hindex in Hrun.
    rewrite (SetParamInfo_new_name w this fd Hload Hsize false _ name type
               default_value Hlt Hnew') in Hrun.
    injection Hrun as <-.
    split; [exact Hin|]. split; [exact Hnew'|]. split; [reflexivity|].
    eexists. split; [apply lookup_insert_eq|].
    intros j info Hj. cbn in Hj. split.
    + intros Hname. destruct (decide (j = Z.to_nat index)) as [|Hne]; [assumption|].
      rewrite list_lookup_insert_ne in Hj by congruence.
      exfalso. apply (Hnew' info); [|exact Hname].
      now apply list_elem_of_lookup_2 with j.
    + intros ->. rewrite list_lookup_insert_eq in Hj by exact Hlt.
      now injection Hj as <-.
Qed.

(** X5 on [sig_xyz]: the declaration of ["t"] at index 1 returns. *)
Lemma SetParamInfo_debug_unique_name_witness :
  0 <= 1 < num_of_params sig_xyz
  /\ forall info, info ∈ ParamInfo sig_xyz -> Name info <> "t"%string.
Proof.
  destruct (SetParamInfo_debug_unique_name world_xyz
              (declared world_xyz 1 sig_xyz 1 "t" porRATIONAL None)
              1 sig_xyz 1 "t" porRATIONAL None)
    as (Hindex & Hnew & _).
  - reflexivity.
  - reflexivity.
  - reflexivity.
  - split; assumption.
Defined.

(** X6: after a declaration under a name that no slot bore, [FindParamName]
    returns the index declared, in either build.  In a build with [NDEBUG],
    where a repeated name is accepted, a name declared again at a later
    index is still found at the earlier one: [FindParamName] never returns
    the later slot. *)
Theorem FindParamName_after_SetParamInfo (ndebug : bool) (w : world)
    (this : positive) (fd : FuncDescObj) (index : nat) (name : gString)
    (type : PortionType) (default_value : Portion_ptr) :
  funcs w !! this = Some fd ->
  num_of_params fd = Z.of_nat (length (ParamInfo fd)) ->
  (index < length (ParamInfo fd))%nat ->
  ((forall info, info ∈ ParamInfo fd -> Name info <> name) ->
   exists w',
     FuncDescObj.SetParamInfo ndebug this (Z.of_nat index) name type
       default_value w = Returns () w'
     /\ FuncDescObj.FindParamName this name w' = Returns (Z.of_nat index) w')
  /\ (forall (k : nat) info,
        ParamInfo fd !! k = Some info -> Name info = name -> (k < index)%nat ->
        (forall j q, (j < k)%nat -> ParamInfo fd !! j = Some q -> Name q <> name) ->
        exists w',
          FuncDescObj.SetParamInfo true this (Z.of_nat index) name type
            default_value w = Returns () w'
          /\ FuncDescObj.FindParamName this name w' = Returns (Z.of_nat k) w').
Proof.
  intros Hload Hsize Hindex.
  set (new := {| Name := name; Type_ := type; DefaultValue := default_value |}).
  set (fd' := {| function := function fd; num_of_params := num_of_params fd;
                 ParamInfo := <[index := new]> (ParamInfo fd) |}).
  set (w' := declared w this fd index name type default_value).
  assert (funcs w' !! this = Some fd') as Hload' by apply lookup_insert_eq.
  assert (num_of_params fd' = Z.of_nat (length (ParamInfo fd'))) as Hsize'
    by (cbn; now rewrite length_insert).
  split.
  - intros Hnew. exists w'.
    split; [now apply SetParamInfo_new_name|].
    apply (FindParamName_first w' this fd' Hload' Hsize' name index new).
    + now apply list_lookup_insert_eq.
    + reflexivity.
    + intros j q Hj Hq. cbn in Hq.
      rewrite list_lookup_insert_ne in Hq by lia.
      apply Hnew. now apply list_elem_of_lookup_2 with j.
  - intros k info Hk Hname Hlt Hfirst. exists w'.
    split; [now apply SetParamInfo_NDEBUG|].
    apply (FindParamName_first w' this fd' Hload' Hsize' name k info).
    + cbn. rewrite list_lookup_insert_ne by lia. exact Hk.
    + exact Hname.
    + intros j q Hj Hq. cbn in Hq.
      rewrite list_lookup_insert_ne in Hq by lia.
      now apply (Hfirst j q).
Qed.

(** X6 on [sig_xyz] in a build with [NDEBUG]: ["x"] declared again at index
    2 is still found at index 0. *)
Lemma FindParamName_after_SetParamInfo_witness :
  exists w',
    FuncDescObj.SetParamInfo true 1 2 "x" porINTEGER None world_xyz = Returns () w'
    /\ FuncDescObj.FindParamName 1 "x" w' = Returns 0 w'.
Proof.
  destruct (FindParamName_after_SetParamInfo true world_xyz 1 sig_xyz 2%nat "x"
              porINTEGER None) as [_ Hlater].
  - reflexivity.
  - reflexivity.
  - simpl. lia.
  - apply (Hlater 0%nat {| Name := "x"; Type_ := porDOUBLE; DefaultValue := None |}).
    + reflexivity.
    + reflexivity.
    + lia.
    + intros j q Hj. lia.
Defined.

(** X7: a declaration that goes through with a default that is null or the
    address of a [Portion] keeps the invariant of the descriptor, the number
    of slots included, and leaves every other descriptor of the store as it
    is. *)
Theorem SetParamInfo_keeps_inv (ndebug : bool) (w : world) (this : positive)
    (fd : FuncDescObj) (index : nat) (name : gString) (type : PortionType)
    (default_value : Portion_ptr) :
  FuncDescObj_inv w this fd ->
  (index < length (ParamInfo fd))%nat ->
  valid_ptr (portions w) default_value ->
  ndebug = true \/ (forall info, info ∈ ParamInfo fd -> Name info <> name) ->
  exists w' fd',
    FuncDescObj.SetParamInfo ndebug this (Z.of_nat index) name type default_value w
    = Returns () w'
    /\ FuncDescObj_inv w' this fd'
    /\ length (ParamInfo fd') = length (ParamInfo fd)
    /\ function fd' = function fd
    /\ forall other g, other <> this ->
         FuncDescObj_inv w other g -> FuncDescObj_inv w' other g.
Proof.
  intros (Hload & Hsize & Hvalid) Hindex Hdefault Hok.
  exists (declared w this fd index name type default_value). eexists.
  split; [now apply SetParamInfo_goes_through|].
  split; [|split; [|split]].
  - split; [apply lookup_insert_eq|]. split.
    + cbn. now rewrite length_insert.
    + cbn. apply Forall_insert; [exact Hvalid | exact Hdefault].
  - cbn. apply length_insert.
  - reflexivity.
  - intros other g Hne (Hload' & Hsize' & Hvalid').
    split; [|split; [exact Hsize' | exact Hvalid']].
    cbn. now rewrite lookup_insert_ne by congruence.
Qed.

(** X7 on [sig_ab]: ["a"] declared again in a build with [NDEBUG], with the
    [Portion] at address 2 as its default. *)
Lemma SetParamInfo_keeps_inv_witness :
  exists w' fd',
    FuncDescObj.SetParamInfo true 1 0 "a" porINTEGER (Some 2%positive) world_ab
    = Returns () w'
    /\ FuncDescObj_inv w' 1 fd'.
Proof.
  destruct (SetParamInfo_keeps_inv true world_ab 1 sig_ab 0%nat "a" porINTEGER
              (Some 2%positive) world_ab_inv)
    as (w' & fd' & Hrun & Hinv & _).
  - simpl. lia.
  - eexists. reflexivity.
  - now left.
  - exists w', fd'. split; assumption.
Defined.

(** ** The type of the current parameter *)

(** X8: with the cursor on a slot, [GetCurrParamType] returns the type
    declared for that parameter and changes nothing.  With a negative cursor
    it passes its own guard and fails in [ParamType]: at the [assert] in a
    build without [NDEBUG], by a read before the array in a build with
    it. *)
Theorem GetCurrParamType_spec (ndebug : bool) (w : world)
    (c : CallFunctionObject) (fd : FuncDescObj) :
  funcs w !! func_desc_obj c = Some fd ->
  num_of_params fd = Z.of_nat (length (ParamInfo fd)) ->
  (forall info,
     0 <= current_param_index c ->
     ParamInfo fd !! Z.to_nat (current_param_index c) = Some info ->
     CallFunctionObject.GetCurrParamType ndebug c w = Returns (Type_ info) w)
  /\ (current_param_index c < 0 ->
      CallFunctionObject.GetCurrParamType false c w = Aborted w
      /\ CallFunctionObject.GetCurrParamType true c w = Undefined).
Proof.
  intros Hload Hsize. split.
  - intros info Hcursor Hinfo.
    pose proof (lookup_lt_Some _ _ _ Hinfo) as Hlt.
    unfold CallFunctionObject.GetCurrParamType.
    rewrite (bind_Returns _ _ _ _ _ (NumParams_eq w _ fd Hload)).
    replace (current_param_index c <? num_of_params fd) with true
      by (symmetry; apply Z.ltb_lt; lia).
    replace (current_param_index c)
      with (Z.of_nat (Z.to_nat (current_param_index c))) by lia.
    exact (ParamType_eq ndebug w _ fd Hload Hsize _ info Hinfo).
  - intros Hneg.
    assert ((current_param_index c <? num_of_params fd) = true) as Hguard
      by (apply Z.ltb_lt; lia).
    assert (~ (0 <= current_param_index c < num_of_params fd)) as Hout by lia.
    split.
    + unfold CallFunctionObject.GetCurrParamType.
      rewrite (bind_Returns _ _ _ _ _ (NumParams_eq w _ fd Hload)), Hguard.
      unfold FuncDescObj.ParamType.
      rewrite (bind_Returns _ _ _ _ _ (load_FuncDescObj_eq w _ fd Hload)).
      now rewrite (index_out_of_range _ _ Hout).
    + unfold CallFunctionObject.GetCurrParamType.
      rewrite (bind_Returns _ _ _ _ _ (NumParams_eq w _ fd Hload)), Hguard.
      unfold FuncDescObj.ParamType.
      rewrite (bind_Returns _ _ _ _ _ (load_FuncDescObj_eq w _ fd Hload)).
      rewrite (bind_Returns _ _ _ _ _ (c_assert_NDEBUG _ w)).
      now rewrite (bind_Undefined _ _ _ (array_get_negative _ _ w Hneg)).
Qed.

(** X8 on [call_ab]: [porINTEGER] at cursor 1, the [assert] at cursor -1. *)
Lemma GetCurrParamType_spec_witness :
  CallFunctionObject.GetCurrParamType false (call_ab 1) world_ab_call
  = Returns porINTEGER world_ab_call
  /\ CallFunctionObject.GetCurrParamType false (call_ab (-1)) world_ab_call
     = Aborted world_ab_call.
Proof.
  split.
  - destruct (GetCurrParamType_spec false world_ab_call (call_ab 1) sig_ab)
      as [Hin _]; [reflexivity | reflexivity |].
    apply (Hin {| Name := "b"; Type_ := porINTEGER; DefaultValue := Some 2%positive |});
      [simpl; lia | reflexivity].
  - destruct (GetCurrParamType_spec false world_ab_call (call_ab (-1)) sig_ab)
      as [_ Hneg]; [reflexivity | reflexivity |].
    apply Hneg. simpl. lia.
Defined.

(** ** Executing a call, in general *)

Lemma first_empty_slot (param : list Portion_ptr) :
  None ∈ param ->
  exists k : nat,
    param !! k = Some None /\ forall j, (j < k)%nat -> param !! j <> Some None.
Proof.
  intros Hempty.
  destruct (list_find_elem_of (fun p : Portion_ptr => p = None) param None
              Hempty eq_refl) as [[k p] Hfind].
  apply list_find_Some in Hfind as (Hk & -> & Hbefore).
  exists k. split; [exact Hk|].
  intros j Hj E. now apply (Hbefore j None E Hj).
Qed.

(** X9: on a call with one slot per parameter of its descriptor,
    [CallFunction] always returns, and does the same in both builds and
    wherever the cursor is.  With every slot filled it calls the entry point
    exactly once, with the slots in order, returns what the entry point
    returns and writes no diagnostic; with an empty slot it returns the null
    pointer and calls nothing. *)
Theorem CallFunction_spec (ndebug : bool) (w : world) (c : CallFunctionObject)
    (fd : FuncDescObj) :
  funcs w !! func_desc_obj c = Some fd ->
  num_of_params fd = Z.of_nat (length (ParamInfo fd)) ->
  length (param c) = length (ParamInfo fd) ->
  (None ∉ param c ->
   CallFunctionObject.CallFunction ndebug c w
   = Returns (function fd (param c) (portions w)).1
       (set_invocations (invocations w ++ [map (deref (portions w)) (param c)])
          (set_portions (function fd (param c) (portions w)).2 w)))
  /\ (None ∈ param c ->
      exists w',
        CallFunctionObject.CallFunction ndebug c w = Returns None w'
        /\ invocations w' = invocations w
        /\ portions w' = portions w
        /\ funcs w' = funcs w)
  /\ CallFunctionObject.CallFunction true c w
     = CallFunctionObject.CallFunction false c w
  /\ forall index,
       CallFunctionObject.CallFunction ndebug
         (CallFunctionObject.SetCurrParamIndex c index) w
       = CallFunctionObject.CallFunction ndebug c w.
Proof.
  intros Hload Hsize Hslots.
  assert (forall nd index, None ∉ param c ->
            CallFunctionObject.CallFunction nd
              (CallFunctionObject.SetCurrParamIndex c index) w
            = call_entry_point (function fd) (param c) w) as Hcomplete.
  { intros nd index Hfull.
    exact (CallFunction_complete nd w
             (CallFunctionObject.SetCurrParamIndex c index) fd
             Hload Hsize Hslots Hfull). }
  assert (forall nd, None ∉ param c ->
            CallFunctionObject.CallFunction nd c w
            = call_entry_point (function fd) (param c) w) as Hcomplete'.
  { intros nd Hfull.
    exact (CallFunction_complete nd w c fd Hload Hsize Hslots Hfull). }
  assert (None ∈ param c ->
          exists info,
            (forall nd,
               CallFunctionObject.CallFunction nd c w
               = Returns None
                   (set_gerr (gerr w +:+ MissingRequiredParameter (Name info)
                                           (func_name c)) w))
            /\ forall nd index,
                 CallFunctionObject.CallFunction nd
                   (CallFunctionObject.SetCurrParamIndex c index) w
                 = Returns None
                     (set_gerr (gerr w +:+ MissingRequiredParameter (Name info)
                                             (func_name c)) w)) as Hmissing.
  { intros Hempty.
    destruct (first_empty_slot _ Hempty) as (k & Hk & Hbefore).
    destruct (lookup_lt_is_Some_2 (ParamInfo fd) k) as [info Hinfo].
    { apply lookup_lt_Some in Hk. lia. }
    exists info. split.
    - intros nd.
      exact (CallFunction_missing nd w c fd Hload Hsize Hslots k info
               Hk Hinfo Hbefore).
    - intros nd index.
      exact (CallFunction_missing nd w
               (CallFunctionObject.SetCurrParamIndex c index) fd
               Hload Hsize Hslots k info Hk Hinfo Hbefore). }
  split; [|split; [|split]].
  - intros Hfull. rewrite (Hcomplete' ndebug Hfull).
    apply call_entry_point_eq.
  - intros Hempty. destruct (Hmissing Hempty) as (info & Hrun & _).
    eexists. split; [exact (Hrun ndebug)|]. repeat split.
  - destruct (decide (None ∈ param c)) as [Hempty|Hfull].
    + destruct (Hmissing Hempty) as (info & Hrun & _). now rewrite !Hrun.
    + now rewrite !(Hcomplete' _ Hfull).
  - intros index.
    destruct (decide (None ∈ param c)) as [Hempty|Hfull].
    + destruct (Hmissing Hempty) as (info & Hrun & Hrun').
      now rewrite Hrun, Hrun'.
    + now rewrite (Hcomplete' _ Hfull), (Hcomplete _ index Hfull).
Qed.

(** X9 on [call_ab 0], whose two slots hold the values 1 and 2. *)
Lemma CallFunction_spec_witness :
  CallFunctionObject.CallFunction false (call_ab 0) world_ab_call
  = Returns (Some 3%positive)
      (set_invocations [[Some (numerical_Portion porINTEGER 1);
                         Some (numerical_Portion porINTEGER 2)]] world_ab_call).
Proof.
  destruct (CallFunction_spec false world_ab_call (call_ab 0) sig_ab)
    as [Hfull _].
  - reflexivity.
  - reflexivity.
  - reflexivity.
  - rewrite Hfull; [reflexivity|].
    intros Hin. vm_compute in Hin.
    repeat (apply elem_of_cons in Hin as [Hin|Hin]; [discriminate|]).
    now apply elem_of_nil in Hin.
Defined.

(** ** Who owns what *)

Lemma valid_ptr_released (w : world) (old p : Portion_ptr) :
  valid_ptr (portions w) p ->
  (forall l, old = Some l -> p <> Some l) ->
  valid_ptr (portions (released old w)) p.
Proof.
  intros Hvalid Hne. destruct old as [l|]; [|exact Hvalid].
  destruct p as [q|]; [|exact I].
  cbn. rewrite lookup_delete_ne; [exact Hvalid|].
  intros ->. now apply (Hne q).
Qed.

(** X10: on a descriptor that satisfies its invariant, the constructor of
    [CallFunctionObject] returns, in both builds, a call that owns what its
    slots hold: one slot per parameter, every filled slot the address of a
    [Portion], no [Portion] in two slots, none of them a default of the
    descriptor; the descriptor keeps its invariant, and every [Portion] that
    existed keeps its contents. *)
Theorem ctor_establishes_ownership (ndebug : bool) (w : world) (name : gString)
    (func : positive) (fd : FuncDescObj) :
  FuncDescObj_inv w func fd ->
  exists c w',
    CallFunctionObject.ctor ndebug name func w = Returns c w'
    /\ CallFunctionObject_owns w' c fd
    /\ func_desc_obj c = func
    /\ current_param_index c = 0
    /\ (forall l v, portions w !! l = Some v -> portions w' !! l = Some v)
    /\ funcs w' = funcs w /\ gerr w' = gerr w /\ invocations w' = invocations w.
Proof.
  intros Hinv.
  destruct (ctor_spec ndebug w name func fd Hinv)
    as (param & h' & Hrun & Hsub & Hlen & Hseeded & Hdistinct).
  destruct Hinv as (Hload & Hsize & Hvalid).
  eexists _, _. split; [exact Hrun|].
  split; [|split; [reflexivity|split; [reflexivity|split; [|repeat split]]]].
  - split; [split; [|split]|split].
    + split; [exact Hload|]. split; [exact Hsize|].
      eapply Forall_impl; [exact Hvalid|].
      intros x Hx. exact (valid_ptr_weaken _ _ _ Hsub Hx).
    + exact Hlen.
    + cbn. apply Forall_lookup_2. intros i p Hp.
      destruct (lookup_lt_is_Some_2 (ParamInfo fd) i) as [info Hinfo].
      { apply lookup_lt_Some in Hp. lia. }
      specialize (Hseeded i info Hinfo). unfold seeded in Hseeded.
      pose proof (Forall_lookup_1 _ _ _ _ Hvalid Hinfo) as Hd. cbv beta in Hd.
      destruct (DefaultValue info) as [d|].
      * destruct Hseeded as (l & Hl & _ & Hcontents).
        rewrite Hp in Hl. injection Hl as ->.
        cbn. rewrite Hcontents. exact Hd.
      * rewrite Hp in Hseeded. now injection Hseeded as ->.
    + intros i j l Hi Hj. cbn in Hi, Hj.
      destruct (decide (i = j)) as [|Hne]; [assumption|].
      exfalso. exact (Hdistinct i j l Hne Hi Hj).
    + intros l Hin (info' & Hinfo' & Hdefault). cbn in Hin.
      apply list_elem_of_lookup_1 in Hin as [i Hi].
      destruct (lookup_lt_is_Some_2 (ParamInfo fd) i) as [info Hinfo].
      { apply lookup_lt_Some in Hi. lia. }
      specialize (Hseeded i info Hinfo). unfold seeded in Hseeded.
      destruct (DefaultValue info) as [d|].
      * destruct Hseeded as (l' & Hl' & Hfree & _).
        rewrite Hi in Hl'. injection Hl' as <-.
        rewrite Forall_forall in Hvalid.
        specialize (Hvalid info' Hinfo'). cbv beta in Hvalid.
        rewrite Hdefault in Hvalid. destruct Hvalid as [v Hv]. congruence.
      * rewrite Hi in Hseeded. discriminate.
  - intros l v Hl. cbn. exact (lookup_weaken _ _ _ _ Hl Hsub).
Qed.

(** X10 on [sig_ab]. *)
Lemma ctor_establishes_ownership_witness :
  exists c w',
    CallFunctionObject.ctor false "f" 1 world_ab = Returns c w'
    /\ CallFunctionObject_owns w' c sig_ab.
Proof.
  destruct (ctor_establishes_ownership false world_ab "f" 1 sig_ab world_ab_inv)
    as (c & w' & Hrun & Howns & _).
  exists c, w'. split; assumption.
Defined.

(** X11: [SetCurrParam] keeps that ownership when the cursor is on a slot
    and the value bound is null or a [Portion] that no slot holds and that
    is no default of the descriptor: the call returned owns its slots in the
    store returned, and the descriptor keeps its invariant there. *)
Theorem SetCurrParam_keeps_ownership (w : world) (c : CallFunctionObject)
    (fd : FuncDescObj) (new_param : Portion_ptr) :
  CallFunctionObject_owns w c fd ->
  0 <= current_param_index c < num_of_params fd ->
  valid_ptr (portions w) new_param ->
  (forall l, new_param = Some l -> (Some l ∉ param c) /\ ~ is_default fd l) ->
  exists c' w',
    CallFunctionObject.SetCurrParam c new_param w = Returns c' w'
    /\ CallFunctionObject_owns w' c' fd
    /\ current_param_index c' = current_param_index c + 1
    /\ param c' !! Z.to_nat (current_param_index c) = Some new_param.
Proof.
  intros (((Hload & Hsize & Hdefaults) & Hslots & Hvalid) & Hdistinct & Hnodefault)
         Hcursor Hnew Hfresh.
  set (k := Z.to_nat (current_param_index c)).
  assert (current_param_index c = Z.of_nat k) as Hk by (unfold k; lia).
  destruct (lookup_lt_is_Some_2 (param c) k) as [old Hold]; [lia|].
  pose proof (lookup_lt_Some _ _ _ Hold) as Hklt.
  eexists _, _.
  split; [exact (SetCurrParam_in_range w c fd new_param k old Hload Hk
                   ltac:(lia) Hold (Forall_lookup_1 _ _ _ _ Hvalid Hold))|].
  split; [|split; [cbn; lia|cbn; now apply list_lookup_insert_eq]].
  split; [split; [|split]|split].
  - split; [destruct old; exact Hload|]. split; [exact Hsize|].
    apply Forall_forall. intros info Hinfo.
    apply valid_ptr_released.
    + rewrite Forall_forall in Hdefaults. exact (Hdefaults info Hinfo).
    + intros l -> Hdefault.
      apply (Hnodefault l); [now apply list_elem_of_lookup_2 with k|].
      now exists info.
  - cbn. now rewrite length_insert.
  - cbn. apply Forall_lookup_2. intros j p Hp.
    apply valid_ptr_released.
    + destruct (decide (j = k)) as [->|Hne].
      * rewrite list_lookup_insert_eq in Hp by exact Hklt.
        now injection Hp as <-.
      * rewrite list_lookup_insert_ne in Hp by congruence.
        exact (Forall_lookup_1 _ _ _ _ Hvalid Hp).
    + intros l -> ->.
      destruct (decide (j = k)) as [->|Hne].
      * rewrite list_lookup_insert_eq in Hp by exact Hklt.
        injection Hp as Hp. destruct (Hfresh l Hp) as [Hnotin _].
        apply Hnotin. now apply list_elem_of_lookup_2 with k.
      * rewrite list_lookup_insert_ne in Hp by congruence.
        apply Hne. exact (Hdistinct j k l Hp Hold).
  - intros i j l Hi Hj. cbn in Hi, Hj.
    destruct (decide (i = k)) as [->|Hik]; destruct (decide (j = k)) as [->|Hjk];
      try reflexivity.
    + rewrite list_lookup_insert_eq in Hi by exact Hklt. injection Hi as Hi.
      rewrite list_lookup_insert_ne in Hj by congruence.
      destruct (Hfresh l Hi) as [Hnotin _].
      exfalso. apply Hnotin. now apply list_elem_of_lookup_2 with j.
    + rewrite list_lookup_insert_eq in Hj by exact Hklt. injection Hj as Hj.
      rewrite list_lookup_insert_ne in Hi by congruence.
      destruct (Hfresh l Hj) as [Hnotin _].
      exfalso. apply Hnotin. now apply list_elem_of_lookup_2 with i.
    + rewrite list_lookup_insert_ne in Hi by congruence.
      rewrite list_lookup_insert_ne in Hj by congruence.
      exact (Hdistinct i j l Hi Hj).
  - intros l Hin. cbn in Hin.
    apply list_elem_of_lookup_1 in Hin as [j Hj].
    destruct (decide (j = k)) as [->|Hne].
    + rewrite list_lookup_insert_eq in Hj by exact Hklt. injection Hj as Hj.
      now destruct (Hfresh l Hj).
    + rewrite list_lookup_insert_ne in Hj by congruence.
      apply Hnodefault. now apply list_elem_of_lookup_2 with j.
Qed.

Lemma call_ab_owns (cursor : Z) :
  CallFunctionObject_owns world_ab_call (call_ab cursor) sig_ab.
Proof.
  split; [split; [exact world_ab_call_inv|split; [reflexivity|]]|split].
  - repeat constructor; eexists; reflexivity.
  - intros i j l Hi Hj.
    pose proof (lookup_lt_Some _ _ _ Hi) as Hi'.
    pose proof (lookup_lt_Some _ _ _ Hj) as Hj'. cbn in Hi', Hj'.
    destruct i as [|[|i]], j as [|[|j]]; try lia; cbn in Hi, Hj; congruence.
  - intros l Hin (info & Hinfo & Hdefault). cbn in Hin, Hinfo.
    repeat (apply elem_of_cons in Hinfo as [-> | Hinfo];
            [cbn in Hdefault; injection Hdefault as <-;
             repeat (apply elem_of_cons in Hin as [Hin | Hin]; [discriminate|]);
             now apply elem_of_nil in Hin|]).
    now apply elem_of_nil in Hinfo.
Qed.

(** X11 on [call_ab 1], binding the [Portion] at address 5. *)
Lemma SetCurrParam_keeps_ownership_witness :
  exists c' w',
    CallFunctionObject.SetCurrParam (call_ab 1) (Some 5%positive) world_ab_call
    = Returns c' w'
    /\ CallFunctionObject_owns w' c' sig_ab
    /\ current_param_index c' = 2.
Proof.
  destruct (SetCurrParam_keeps_ownership world_ab_call (call_ab 1) sig_ab
              (Some 5%positive) (call_ab_owns 1))
    as (c' & w' & Hrun & Howns & Hcursor & _).
  - simpl. lia.
  - eexists. reflexivity.
  - intros l [= <-]. split.
    + intros Hin. cbn in Hin.
      repeat (apply elem_of_cons in Hin as [Hin | Hin]; [discriminate|]).
      now apply elem_of_nil in Hin.
    + intros (info & Hinfo & Hdefault). cbn in Hinfo.
      repeat (apply elem_of_cons in Hinfo as [-> | Hinfo]; [discriminate|]).
      now apply elem_of_nil in Hinfo.
  - exists c', w'. split; [exact Hrun | split; [exact Howns | exact Hcursor]].
Defined.

(** X12: when the value bound is the very [Portion] that the slot at the
    cursor holds, [SetCurrParam] deletes it and then stores its address: the
    slots are as before, but the slot at the cursor now holds the address of
    no [Portion]. *)
Theorem SetCurrParam_same_value (w : world) (c : CallFunctionObject)
    (fd : FuncDescObj) (l : positive) :
  funcs w !! func_desc_obj c = Some fd ->
  0 <= current_param_index c < num_of_params fd ->
  param c !! Z.to_nat (current_param_index c) = Some (Some l) ->
  is_Some (portions w !! l) ->
  exists c' w',
    CallFunctionObject.SetCurrParam c (Some l) w = Returns c' w'
    /\ param c' = param c
    /\ param c' !! Z.to_nat (current_param_index c) = Some (Some l)
    /\ portions w' !! l = None
    /\ deref (portions w') (Some l) = None.
Proof.
  intros Hload Hcursor Hslot Hlive.
  set (k := Z.to_nat (current_param_index c)) in *.
  assert (current_param_index c = Z.of_nat k) as Hk by (unfold k; lia).
  eexists _, _.
  split; [exact (SetCurrParam_in_range w c fd (Some l) k (Some l) Hload Hk
                   ltac:(lia) Hslot Hlive)|].
  cbn. rewrite list_insert_id by exact Hslot.
  split; [reflexivity|]. split; [exact Hslot|].
  split; apply lookup_delete_eq.
Qed.

(** X12 on [call_ab 1], binding the [Portion] at address 4 again. *)
Lemma SetCurrParam_same_value_witness :
  exists c' w',
    CallFunctionObject.SetCurrParam (call_ab 1) (Some 4%positive) world_ab_call
    = Returns c' w'
    /\ param c' = param (call_ab 1)
    /\ portions w' !! 4%positive = None.
Proof.
  destruct (SetCurrParam_same_value world_ab_call (call_ab 1) sig_ab 4)
    as (c' & w' & Hrun & Hparam & _ & Hgone & _).
  - reflexivity.
  - simpl. lia.
  - reflexivity.
  - eexists. reflexivity.
  - exists c', w'. repeat split; assumption.
Defined.

(** ** The destructor of [FuncDescObj] *)

Lemma array_get_cases {A : Type} (a : list A) (i : Z) (w : world) :
  (exists x, array_get a i w = Returns x w) \/ array_get a i w = Undefined.
Proof.
  unfold array_get. destruct (0 <=? i); [|now right].
  destruct (a !! Z.to_nat i) as [x|]; [left; now exists x | now right].
Qed.

Lemma Portion_delete_cases (p : Portion_ptr) (w : world) :
  (exists h, Portion_delete p w = Returns () (set_portions h w))
  \/ Portion_delete p w = Undefined.
Proof.
  unfold Portion_delete. destruct p as [l|].
  - destruct (portions w !! l); [left; eauto | now right].
  - left. exists (portions w). now destruct w.
Qed.

(** The loop of the destructor returns, in a store that differs in its
    values only, or is undefined: it never stops at an [assert]. *)
Lemma dtor_loop_cases (fd : FuncDescObj) :
  forall (n : nat) (i : Z) (w : world),
    (exists h', FuncDescObj.dtor_loop fd n i w = Returns () (set_portions h' w))
    \/ FuncDescObj.dtor_loop fd n i w = Undefined.
Proof.
  induction n as [|n IH]; intros i w.
  - left. exists (portions w). now destruct w.
  - cbn [FuncDescObj.dtor_loop].
    destruct (array_get_cases (ParamInfo fd) i w) as [[info Hget]|Hget].
    2:{ right. now rewrite (bind_Undefined _ _ _ Hget). }
    rewrite (bind_Returns _ _ _ _ _ Hget).
    destruct (Portion_delete_cases (DefaultValue info) w) as [[h Hdel]|Hdel].
    2:{ right. now rewrite (bind_Undefined _ _ _ Hdel). }
    rewrite (bind_Returns _ _ _ _ _ Hdel).
    destruct (IH (i + 1) (set_portions h w)) as [[h' Hrest]|Hrest].
    + left. exists h'. exact Hrest.
    + right. exact Hrest.
Qed.

Lemma default_from_weaken (fd : FuncDescObj) (i : nat) (l : positive) :
  default_from fd (S i) l -> default_from fd i l.
Proof. intros (j & a & Hj & Ha & Hd). exists j, a. split; [lia|]. now split. Qed.

Lemma default_from_cases (fd : FuncDescObj) (i : nat) (info : ParamInfoType)
    (l : positive) :
  ParamInfo fd !! i = Some info ->
  default_from fd i l ->
  DefaultValue info = Some l \/ default_from fd (S i) l.
Proof.
  intros Hinfo (j & a & Hj & Ha & Hd).
  destruct (decide (j = i)) as [->|Hne].
  - left. congruence.
  - right. exists j, a. split; [lia|]. now split.
Qed.

(** With defaults that are distinct and in the store, the loop deletes
    exactly the defaults from its index on. *)
Lemma dtor_loop_spec (fd : FuncDescObj) :
  distinct_defaults fd ->
  forall (n i : nat) (w : world),
    (i + n = length (ParamInfo fd))%nat ->
    (forall l, default_from fd i l -> is_Some (portions w !! l)) ->
    exists h',
      FuncDescObj.dtor_loop fd n (Z.of_nat i) w = Returns () (set_portions h' w)
      /\ (forall l, default_from fd i l -> h' !! l = None)
      /\ (forall l, ~ default_from fd i l -> h' !! l = portions w !! l).
Proof.
  intros Hdistinct. induction n as [|n IH]; intros i w Hi Hlive.
  - exists (portions w). split; [now destruct w|]. split; [|reflexivity].
    intros l (j & a & Hj & Ha & _). apply lookup_lt_Some in Ha. lia.
  - destruct (lookup_lt_is_Some_2 (ParamInfo fd) i) as [info Hinfo]; [lia|].
    cbn [FuncDescObj.dtor_loop].
    rewrite (bind_Returns _ _ _ _ _ (array_get_nat _ _ _ w Hinfo)).
    replace (Z.of_nat i + 1) with (Z.of_nat (S i)) by lia.
    destruct (DefaultValue info) as [d|] eqn:Hdefault.
    + assert (default_from fd i d) as Hd by (exists i, info; auto).
      destruct (Hlive d Hd) as [v Hv].
      assert (~ default_from fd (S i) d) as Hlater.
      { intros (j & a & Hj & Ha & Hda).
        pose proof (Hdistinct i j info a d Hinfo Ha Hdefault Hda). lia. }
      assert (Portion_delete (Some d) w
              = Returns () (set_portions (delete d (portions w)) w)) as Hdel.
      { unfold Portion_delete. now rewrite Hv. }
      rewrite (bind_Returns _ _ _ _ _ Hdel).
      destruct (IH (S i) (set_portions (delete d (portions w)) w))
        as (h' & Hrun & Hgone & Hkept); [lia| |].
      { intros l Hl. cbn. rewrite lookup_delete_ne.
        - apply Hlive. now apply default_from_weaken.
        - intros ->. now apply Hlater. }
      exists h'. split; [exact Hrun|]. split.
      * intros l Hl.
        destruct (default_from_cases fd i info l Hinfo Hl) as [E|Hl'].
        -- assert (l = d) as -> by congruence.
           rewrite (Hkept d Hlater). cbn. apply lookup_delete_eq.
        -- now apply Hgone.
      * intros l Hl.
        assert (l <> d) as Hne by (intros ->; now apply Hl).
        rewrite Hkept by (intros Hl'; now apply Hl, default_from_weaken).
        cbn. now apply lookup_delete_ne.
    + rewrite (bind_Returns _ _ w w () eq_refl).
      destruct (IH (S i) w) as (h' & Hrun & Hgone & Hkept); [lia| |].
      { intros l Hl. now apply Hlive, default_from_weaken. }
      exists h'. split; [exact Hrun|]. split.
      * intros l Hl.
        destruct (default_from_cases fd i info l Hinfo Hl) as [E|Hl'];
          [congruence | now apply Hgone].
      * intros l Hl. apply Hkept.
        intros Hl'. now apply Hl, default_from_weaken.
Qed.

(** When the loop returns, each default it went over was in the store, and
    no two of them were the same [Portion]. *)
Lemma dtor_loop_returns (fd : FuncDescObj) :
  forall (n i : nat) (w w' : world),
    (i + n = length (ParamInfo fd))%nat ->
    FuncDescObj.dtor_loop fd n (Z.of_nat i) w = Returns () w' ->
    (forall l, default_from fd i l -> is_Some (portions w !! l))
    /\ (forall j j' a b l,
          (i <= j)%nat -> (i <= j')%nat ->
          ParamInfo fd !! j = Some a -> ParamInfo fd !! j' = Some b ->
          DefaultValue a = Some l -> DefaultValue b = Some l -> j = j').
Proof.
  induction n as [|n IH]; intros i w w' Hi Hrun.
  - split.
    + intros l (j & a & Hj & Ha & _). apply lookup_lt_Some in Ha. lia.
    + intros j j' a b l Hj _ Ha. apply lookup_lt_Some in Ha. lia.
  - destruct (lookup_lt_is_Some_2 (ParamInfo fd) i) as [info Hinfo]; [lia|].
    cbn [FuncDescObj.dtor_loop] in Hrun.
    rewrite (bind_Returns _ _ _ _ _ (array_get_nat _ _ _ w Hinfo)) in Hrun.
    replace (Z.of_nat i + 1) with (Z.of_nat (S i)) in Hrun by lia.
    destruct (DefaultValue info) as [d|] eqn:Hdefault.
    + destruct (portions w !! d) as [v|] eqn:Hv.
      2:{ rewrite (bind_Undefined _ _ w) in Hrun; [discriminate|].
          unfold Portion_delete. now rewrite Hv. }
      assert (Portion_delete (Some d) w
              = Returns () (set_portions (delete d (portions w)) w)) as Hdel.
      { unfold Portion_delete. now rewrite Hv. }
      rewrite (bind_Returns _ _ _ _ _ Hdel) in Hrun.
      destruct (IH (S i) _ w' ltac:(lia) Hrun) as [Hlive Hdistinct].
      assert (~ default_from fd (S i) d) as Hlater.
      { intros Hd. destruct (Hlive d Hd) as [x Hx]. cbn in Hx.
        now rewrite lookup_delete_eq in Hx. }
      split.
      * intros l Hl.
        destruct (default_from_cases fd i info l Hinfo Hl) as [E|Hl'].
        -- assert (l = d) as -> by congruence. now exists v.
        -- destruct (Hlive l Hl') as [x Hx]. cbn in Hx.
           apply lookup_delete_Some in Hx as [_ Hx]. now exists x.
      * intros j j' a b l Hj Hj' Ha Hb Hda Hdb.
        destruct (decide (j = i)) as [->|Hne];
          destruct (decide (j' = i)) as [->|Hne']; [reflexivity| | |].
        -- exfalso. apply Hlater. exists j', b.
           split; [lia|]. split; [exact Hb|]. congruence.
        -- exfalso. apply Hlater. exists j, a.
           split; [lia|]. split; [exact Ha|]. congruence.
        -- apply (Hdistinct j j' a b l); (lia || assumption).
    + rewrite (bind_Returns _ _ w w () eq_refl) in Hrun.
      destruct (IH (S i) _ w' ltac:(lia) Hrun) as [Hlive Hdistinct].
      split.
      * intros l Hl.
        destruct (default_from_cases fd i info l Hinfo Hl) as [E|Hl'];
          [congruence | now apply Hlive].
      * intros j j' a b l Hj Hj' Ha Hb Hda Hdb.
        destruct (decide (j = i)) as [->|Hne]; [congruence|].
        destruct (decide (j' = i)) as [->|Hne']; [congruence|].
        apply (Hdistinct j j' a b l); (lia || assumption).
Qed.

Lemma default_from_0 (fd : FuncDescObj) (l : positive) :
  default_from fd 0 l <-> is_default fd l.
Proof.
  split.
  - intros (j & a & _ & Ha & Hd). exists a.
    split; [now apply list_elem_of_lookup_2 with j | exact Hd].
  - intros (a & Ha & Hd). apply list_elem_of_lookup_1 in Ha as [j Hj].
    exists j, a. split; [lia|]. now split.
Qed.

(** X13: on a descriptor whose defaults are in the store, no [Portion]
    being the default of two parameters, the destructor returns: the
    descriptor is gone, its defaults are deleted and every other [Portion]
    is as before, the copies that calls hold included.  The destructor
    returns in no other case: when a default is not in the store, or is the
    default of two parameters, it deletes what is not there, which is
    undefined. *)
Theorem dtor_spec (w : world) (this : positive) (fd : FuncDescObj) :
  funcs w !! this = Some fd ->
  num_of_params fd = Z.of_nat (length (ParamInfo fd)) ->
  (distinct_defaults fd ->
   (forall l, is_default fd l -> is_Some (portions w !! l)) ->
   exists h',
     FuncDescObj.dtor this w
     = Returns () (set_funcs (delete this (funcs w)) (set_portions h' w))
     /\ (forall l, is_default fd l -> h' !! l = None)
     /\ (forall l, ~ is_default fd l -> h' !! l = portions w !! l))
  /\ (forall w',
        FuncDescObj.dtor this w = Returns () w' ->
        distinct_defaults fd
        /\ (forall l, is_default fd l -> is_Some (portions w !! l))
        /\ funcs w' !! this = None)
  /\ (~ distinct_defaults fd -> FuncDescObj.dtor this w = Undefined)
  /\ (forall l, is_default fd l -> portions w !! l = None ->
        FuncDescObj.dtor this w = Undefined).
Proof.
  intros Hload Hsize.
  assert (FuncDescObj.dtor this w
          = (FuncDescObj.dtor_loop fd (length (ParamInfo fd)) (Z.of_nat 0);;
             delete_FuncDescObj this) w) as Hdtor.
  { unfold FuncDescObj.dtor.
    rewrite (bind_Returns _ _ _ _ _ (load_FuncDescObj_eq w this fd Hload)).
    now replace (Z.to_nat (num_of_params fd)) with (length (ParamInfo fd))
      by (rewrite Hsize; lia). }
  split; [|split; [|split]].
  - intros Hdistinct Hlive.
    destruct (dtor_loop_spec fd Hdistinct (length (ParamInfo fd)) 0%nat w)
      as (h' & Hrun & Hgone & Hkept); [lia| |].
    { intros l Hl. now apply Hlive, default_from_0. }
    exists h'. split; [|split].
    + rewrite Hdtor. now rewrite (bind_Returns _ _ _ _ _ Hrun).
    + intros l Hl. now apply Hgone, default_from_0.
    + intros l Hl. apply Hkept. intros Hl'. now apply Hl, default_from_0.
  - intros w' Hrun. rewrite Hdtor in Hrun.
    destruct (dtor_loop_cases fd (length (ParamInfo fd)) (Z.of_nat 0) w)
      as [[h' Hloop]|Hloop].
    2:{ rewrite (bind_Undefined _ _ _ Hloop) in Hrun. discriminate. }
    destruct (dtor_loop_returns fd (length (ParamInfo fd)) 0%nat w _
                ltac:(lia) Hloop) as [Hlive Hdistinct].
    rewrite (bind_Returns _ _ _ _ _ Hloop) in Hrun.
    injection Hrun as <-.
    split; [|split].
    + intros i j a b l Ha Hb Hda Hdb.
      apply (Hdistinct i j a b l); (lia || assumption).
    + intros l Hl. now apply Hlive, default_from_0.
    + cbn. apply lookup_delete_eq.
  - intros Hshared. rewrite Hdtor.
    destruct (dtor_loop_cases fd (length (ParamInfo fd)) (Z.of_nat 0) w)
      as [[h' Hloop]|Hloop]; [|now rewrite (bind_Undefined _ _ _ Hloop)].
    destruct (dtor_loop_returns fd (length (ParamInfo fd)) 0%nat w _
                ltac:(lia) Hloop) as [_ Hdistinct].
    exfalso. apply Hshared. intros i j a b l Ha Hb Hda Hdb.
    apply (Hdistinct i j a b l); (lia || assumption).
  - intros l Hl Hgone. rewrite Hdtor.
    destruct (dtor_loop_cases fd (length (ParamInfo fd)) (Z.of_nat 0) w)
      as [[h' Hloop]|Hloop]; [|now rewrite (bind_Undefined _ _ _ Hloop)].
    destruct (dtor_loop_returns fd (length (ParamInfo fd)) 0%nat w _
                ltac:(lia) Hloop) as [Hlive _].
    destruct (Hlive l) as [v Hv]; [now apply default_from_0|]. congruence.
Qed.

(** X13 on [sig_ab], whose two defaults are at 1 and 2, and on
    [sig_shared], whose two parameters have the [Portion] at 1 as their
    default. *)
Lemma dtor_spec_witness :
  (exists h',
     FuncDescObj.dtor 1 world_ab
     = Returns () (set_funcs (delete 1%positive (funcs world_ab))
                     (set_portions h' world_ab))
     /\ h' !! 1%positive = None /\ h' !! 2%positive = None)
  /\ FuncDescObj.dtor 1 world_shared = Undefined.
Proof.
  split.
  - destruct (dtor_spec world_ab 1 sig_ab) as [Hreturns _];
      [reflexivity | reflexivity |].
    destruct Hreturns as (h' & Hrun & Hgone & _).
    + intros i j a b l Ha Hb Hda Hdb.
      pose proof (lookup_lt_Some _ _ _ Ha) as Hi.
      pose proof (lookup_lt_Some _ _ _ Hb) as Hj. cbn in Hi, Hj.
      destruct i as [|[|i]], j as [|[|j]]; try lia;
        cbn in Ha, Hb; injection Ha as <-; injection Hb as <-;
        cbn in Hda, Hdb; congruence.
    + intros l (info & Hinfo & Hdefault). cbn in Hinfo.
      repeat (apply elem_of_cons in Hinfo as [-> | Hinfo];
              [injection Hdefault as <-; eexists; reflexivity|]).
      now apply elem_of_nil in Hinfo.
    + exists h'. split; [exact Hrun|].
      split; apply Hgone.
      * exists {| Name := "a"; Type_ := porINTEGER; DefaultValue := Some 1%positive |}.
        split; [now apply (list_elem_of_lookup_2 _ 0%nat) | reflexivity].
      * exists {| Name := "b"; Type_ := porINTEGER; DefaultValue := Some 2%positive |}.
        split; [now apply (list_elem_of_lookup_2 _ 1%nat) | reflexivity].
  - destruct (dtor_spec world_shared 1 sig_shared) as (_ & _ & Hshared & _);
      [reflexivity | reflexivity |].
    apply Hshared. intros Hdistinct.
    pose proof (Hdistinct 0%nat 1%nat _ _ 1%positive eq_refl eq_refl eq_refl eq_refl).
    discriminate.
Defined.

(** ** A call borrows its descriptor *)

Lemma methods_without_descriptor (ndebug : bool) (w : world)
    (c : CallFunctionObject) (name : gString) (new_param : Portion_ptr) :
  funcs w !! func_desc_obj c = None ->
  CallFunctionObject.FindParamName c name w = Undefined
  /\ CallFunctionObject.GetCurrParamType ndebug c w = Undefined
  /\ CallFunctionObject.SetCurrParam c new_param w = Undefined
  /\ CallFunctionObject.CallFunction ndebug c w = Undefined.
Proof.
  intros Hgone.
  assert (load_FuncDescObj (func_desc_obj c) w = Undefined) as Hload
    by (unfold load_FuncDescObj; now rewrite Hgone).
  assert (FuncDescObj.NumParams (func_desc_obj c) w = Undefined) as Hnum
    by (unfold FuncDescObj.NumParams; now rewrite (bind_Undefined _ _ _ Hload)).
  split; [|split; [|split]].
  - unfold CallFunctionObject.FindParamName, FuncDescObj.FindParamName.
    now rewrite (bind_Undefined _ _ _ Hload).
  - unfold CallFunctionObject.GetCurrParamType.
    now rewrite (bind_Undefined _ _ _ Hnum).
  - unfold CallFunctionObject.SetCurrParam.
    now rewrite (bind_Undefined _ _ _ Hnum).
  - unfold CallFunctionObject.CallFunction.
    now rewrite (bind_Undefined _ _ _ Hnum).
Qed.

(** X14: a call holds the address of its descriptor, not a copy.  A
    parameter declared on the descriptor after the call was constructed is
    found through the call, by [FindParamName] and, with the cursor on it, by
    [GetCurrParamType].  Once the destructor of the descriptor has returned,
    every method of the call that reads the descriptor is undefined. *)
Theorem call_borrows_descriptor (ndebug : bool) (w : world)
    (c : CallFunctionObject) (fd : FuncDescObj) :
  funcs w !! func_desc_obj c = Some fd ->
  num_of_params fd = Z.of_nat (length (ParamInfo fd)) ->
  (forall (index : nat) name type default_value,
     (index < length (ParamInfo fd))%nat ->
     (forall info, info ∈ ParamInfo fd -> Name info <> name) ->
     exists w',
       FuncDescObj.SetParamInfo ndebug (func_desc_obj c) (Z.of_nat index) name
         type default_value w = Returns () w'
       /\ CallFunctionObject.FindParamName c name w' = Returns (Z.of_nat index) w'
       /\ CallFunctionObject.GetCurrParamType ndebug
            (CallFunctionObject.SetCurrParamIndex c (Z.of_nat index)) w'
          = Returns type w')
  /\ (forall w' name new_param,
        FuncDescObj.dtor (func_desc_obj c) w = Returns () w' ->
        CallFunctionObject.FindParamName c name w' = Undefined
        /\ CallFunctionObject.GetCurrParamType ndebug c w' = Undefined
        /\ CallFunctionObject.SetCurrParam c new_param w' = Undefined
        /\ CallFunctionObject.CallFunction ndebug c w' = Undefined).
Proof.
  intros Hload Hsize. split.
  - intros index name type default_value Hindex Hnew.
    set (new := {| Name := name; Type_ := type; DefaultValue := default_value |}).
    set (fd' := {| function := function fd; num_of_params := num_of_params fd;
                   ParamInfo := <[index := new]> (ParamInfo fd) |}).
    set (w' := declared w (func_desc_obj c) fd index name type default_value).
    assert (funcs w' !! func_desc_obj c = Some fd') as Hload'
      by apply lookup_insert_eq.
    assert (num_of_params fd' = Z.of_nat (length (ParamInfo fd'))) as Hsize'
      by (cbn; now rewrite length_insert).
    assert (ParamInfo fd' !! index = Some new) as Hslot
      by now apply list_lookup_insert_eq.
    exists w'. split; [now apply SetParamInfo_new_name|]. split.
    + apply (FindParamName_first w' _ fd' Hload' Hsize' name index new Hslot eq_refl).
      intros j q Hj Hq. cbn in Hq.
      rewrite list_lookup_insert_ne in Hq by lia.
      apply Hnew. now apply list_elem_of_lookup_2 with j.
    + unfold CallFunctionObject.GetCurrParamType.
      cbn [func_desc_obj current_param_index func_name
           CallFunctionObject.SetCurrParamIndex].
      rewrite (bind_Returns _ _ _ _ _ (NumParams_eq w' _ fd' Hload')).
      replace (Z.of_nat index <? num_of_params fd') with true
        by (symmetry; apply Z.ltb_lt; cbn; lia).
      exact (ParamType_eq ndebug w' _ fd' Hload' Hsize' index new Hslot).
  - intros w' name new_param Hrun.
    apply methods_without_descriptor.
    unfold FuncDescObj.dtor in Hrun.
    rewrite (bind_Returns _ _ _ _ _ (load_FuncDescObj_eq w _ fd Hload)) in Hrun.
    destruct (dtor_loop_cases fd (Z.to_nat (num_of_params fd)) 0 w)
      as [[h' Hloop]|Hloop].
    + rewrite (bind_Returns _ _ _ _ _ Hloop) in Hrun.
      injection Hrun as <-. cbn. apply lookup_delete_eq.
    + rewrite (bind_Undefined _ _ _ Hloop) in Hrun. discriminate.
Qed.

(** X14 on [call_xyz]: ["t"], declared at index 1 after the call exists, is
    found through the call. *)
Lemma call_borrows_descriptor_witness :
  exists w',
    FuncDescObj.SetParamInfo false 1 1 "t" porRATIONAL None world_xyz
    = Returns () w'
    /\ CallFunctionObject.FindParamName call_xyz "t" w' = Returns 1 w'.
Proof.
  destruct (call_borrows_descriptor false world_xyz call_xyz sig_xyz)
    as [Hseen _]; [reflexivity | reflexivity |].
  destruct (Hseen 1%nat "t"%string porRATIONAL None) as (w' & Hrun & Hfind & _).
  - simpl. lia.
  - intros info Hin. vm_compute in Hin.
    repeat (apply elem_of_cons in Hin as [-> | Hin]; [discriminate|]).
    now apply elem_of_nil in Hin.
  - exists w'. split; assumption.
Defined.

(** ** Constructing, binding and executing *)

(** X15: a call executed as it is constructed, on a descriptor that
    satisfies its invariant.  When a parameter has no default, the call
    returns the null pointer with the diagnostic that names the first such
    parameter, and the entry point is not called.  When every parameter has
    a default, the entry point is called once, with the values of the
    defaults in the order of the parameters, and no diagnostic is
    written. *)
Theorem call_with_defaults_spec (ndebug : bool) (w : world) (name : gString)
    (func : positive) (fd : FuncDescObj) :
  FuncDescObj_inv w func fd ->
  (forall (k : nat) info,
     ParamInfo fd !! k = Some info ->
     DefaultValue info = NO_DEFAULT_VALUE ->
     (forall j q, (j < k)%nat -> ParamInfo fd !! j = Some q ->
                  DefaultValue q <> NO_DEFAULT_VALUE) ->
     exists h',
       call_with_defaults ndebug name func w
       = Returns None
           (set_gerr (gerr w +:+ MissingRequiredParameter (Name info) name)
              (set_portions h' w)))
  /\ ((forall info, info ∈ ParamInfo fd -> DefaultValue info <> NO_DEFAULT_VALUE) ->
      exists args h',
        call_with_defaults ndebug name func w
        = Returns (function fd args h').1
            (set_invocations
               (invocations w
                ++ [map (fun info => deref (portions w) (DefaultValue info))
                      (ParamInfo fd)])
               (set_portions (function fd args h').2 w))).
Proof.
  intros Hinv.
  destruct (ctor_spec ndebug w name func fd Hinv)
    as (param & h' & Hctor & Hsub & Hlen & Hseeded & _).
  destruct Hinv as (Hload & Hsize & Hvalid).
  set (c := {| func_name := name; func_desc_obj := func;
               param := param; current_param_index := 0 |}) in *.
  split.
  - intros k info Hinfo Hnone Hbefore. exists h'.
    unfold call_with_defaults. rewrite (bind_Returns _ _ _ _ _ Hctor).
    apply (CallFunction_missing ndebug (set_portions h' w) c fd Hload Hsize Hlen
             k info).
    + specialize (Hseeded k info Hinfo). unfold seeded in Hseeded.
      now rewrite Hnone in Hseeded.
    + exact Hinfo.
    + intros j Hj Hslot.
      destruct (lookup_lt_is_Some_2 (ParamInfo fd) j) as [q Hq].
      { apply lookup_lt_Some in Hinfo. lia. }
      specialize (Hseeded j q Hq). unfold seeded in Hseeded.
      destruct (DefaultValue q) as [d|] eqn:Hd.
      * destruct Hseeded as (l & Hl & _). cbn in Hslot. congruence.
      * now apply (Hbefore j q Hj Hq).
  - intros Hall. exists param, h'.
    unfold call_with_defaults. rewrite (bind_Returns _ _ _ _ _ Hctor).
    rewrite (CallFunction_complete ndebug (set_portions h' w) c fd Hload Hsize Hlen).
    + rewrite call_entry_point_eq. cbn.
      replace (map (deref h') param)
        with (map (fun info => deref (portions w) (DefaultValue info))
                (ParamInfo fd)); [reflexivity|].
      apply list_eq. intros i. rewrite !list_lookup_fmap.
      destruct (ParamInfo fd !! i) as [info|] eqn:Hinfo.
      * specialize (Hseeded i info Hinfo). unfold seeded in Hseeded.
        pose proof (Forall_lookup_1 _ _ _ _ Hvalid Hinfo) as Hd. cbv beta in Hd.
        destruct (DefaultValue info) as [d|] eqn:Hdefault.
        -- destruct Hseeded as (l & Hl & _ & Hcontents).
           rewrite Hl. cbn. now rewrite Hdefault, Hcontents.
        -- exfalso. apply (Hall info); [|exact Hdefault].
           now apply list_elem_of_lookup_2 with i.
      * apply lookup_ge_None in Hinfo.
        now rewrite (lookup_ge_None_2 param i) by lia.
    + cbn. intros Hin. apply list_elem_of_lookup_1 in Hin as [i Hi].
      destruct (lookup_lt_is_Some_2 (ParamInfo fd) i) as [info Hinfo].
      { apply lookup_lt_Some in Hi. lia. }
      specialize (Hseeded i info Hinfo). unfold seeded in Hseeded.
      destruct (DefaultValue info) as [d|] eqn:Hdefault.
      * destruct Hseeded as (l & Hl & _). congruence.
      * apply (Hall info); [|exact Hdefault].
        now apply list_elem_of_lookup_2 with i.
Qed.

(** X15 on [sig_xyz], where no parameter has a default: the diagnostic
    names ["x"]. *)
Lemma call_with_defaults_spec_witness :
  exists h',
    call_with_defaults false "F" 1 world_xyz
    = Returns None
        (set_gerr (gerr world_xyz +:+ MissingRequiredParameter "x" "F")
           (set_portions h' world_xyz)).
Proof.
  destruct (call_with_defaults_spec false world_xyz "F" 1 sig_xyz) as [Hmissing _].
  - split; [reflexivity|]. split; [reflexivity|]. repeat constructor.
  - apply (Hmissing 0%nat {| Name := "x"; Type_ := porDOUBLE; DefaultValue := None |}).
    + reflexivity.
    + reflexivity.
    + intros j q Hj. lia.
Defined.

(** X16: binding and executing.  On a call that owns its slots, with the
    cursor on a slot and every other slot filled, binding a [Portion] of
    value [v] that no slot holds and then executing calls the entry point
    once, with the values that the slots held, but [v] at the cursor. *)
Theorem SetCurrParam_then_CallFunction (ndebug : bool) (w : world)
    (c : CallFunctionObject) (fd : FuncDescObj) (l : positive) (v : Portion) :
  CallFunctionObject_owns w c fd ->
  0 <= current_param_index c < num_of_params fd ->
  portions w !! l = Some v ->
  Some l ∉ param c ->
  (forall j, j <> Z.to_nat (current_param_index c) -> param c !! j <> Some None) ->
  exists c' w' r w'',
    CallFunctionObject.SetCurrParam c (Some l) w = Returns c' w'
    /\ CallFunctionObject.CallFunction ndebug c' w' = Returns r w''
    /\ invocations w''
       = invocations w
         ++ [<[Z.to_nat (current_param_index c) := Some v]>
               (map (deref (portions w)) (param c))]
    /\ gerr w'' = gerr w.
Proof.
  intros (((Hload & Hsize & _) & Hslots & Hvalid) & Hdistinct & _)
         Hcursor Hl Hfresh Hothers.
  set (k := Z.to_nat (current_param_index c)) in *.
  assert (current_param_index c = Z.of_nat k) as Hk by (unfold k; lia).
  destruct (lookup_lt_is_Some_2 (param c) k) as [old Hold]; [lia|].
  pose proof (lookup_lt_Some _ _ _ Hold) as Hklt.
  pose proof (SetCurrParam_in_range w c fd (Some l) k old Hload Hk
                ltac:(lia) Hold (Forall_lookup_1 _ _ _ _ Hvalid Hold)) as Hbind.
  set (c' := {| func_name := func_name c; func_desc_obj := func_desc_obj c;
                param := <[k := Some l]> (param c);
                current_param_index := Z.of_nat k + 1 |}) in *.
  assert (funcs (released old w) !! func_desc_obj c' = Some fd) as Hload'
    by (destruct old; exact Hload).
  assert (length (param c') = length (ParamInfo fd)) as Hslots'
    by (cbn; now rewrite length_insert).
  assert (None ∉ param c') as Hfull.
  { intros Hin. apply list_elem_of_lookup_1 in Hin as [j Hj]. cbn in Hj.
    destruct (decide (j = k)) as [->|Hne].
    - rewrite list_lookup_insert_eq in Hj by exact Hklt. discriminate.
    - rewrite list_lookup_insert_ne in Hj by congruence.
      now apply (Hothers j Hne). }
  assert (forall p, p <> old -> valid_ptr (portions w) p ->
            deref (portions (released old w)) p = deref (portions w) p) as Hkept.
  { intros p Hp _. destruct old as [lo|]; [|reflexivity].
    destruct p as [q|]; [|reflexivity]. cbn.
    apply lookup_delete_ne. congruence. }
  assert (Some l <> old) as Hlold.
  { intros <-. apply Hfresh. now apply list_elem_of_lookup_2 with k. }
  eexists c', (released old w), _, _.
  split; [exact Hbind|]. split.
  - rewrite (CallFunction_complete ndebug (released old w) c' fd
               Hload' Hsize Hslots' Hfull).
    apply call_entry_point_eq.
  - split; [|now destruct old].
    replace (invocations (released old w)) with (invocations w)
      by now destruct old.
    cbn [invocations set_invocations]. do 2 f_equal.
    cbn [param c']. rewrite list_fmap_insert.
    rewrite (Hkept (Some l) Hlold ltac:(now exists v)). cbn [deref]. rewrite Hl.
    apply list_eq. intros j.
    destruct (decide (j = k)) as [->|Hne].
    + rewrite !list_lookup_insert_eq; [reflexivity| |];
        now rewrite length_fmap.
    + rewrite !list_lookup_insert_ne by congruence.
      rewrite !list_lookup_fmap.
      destruct (param c !! j) as [p|] eqn:Hp; [|reflexivity]. cbn. f_equal.
      apply Hkept; [|exact (Forall_lookup_1 _ _ _ _ Hvalid Hp)].
      intros ->. destruct old as [lo|].
      * apply Hne. exact (Hdistinct j k lo Hp Hold).
      * now apply (Hothers j Hne).
Qed.

(** X16 on [call_ab 1]: binding the value 5 and executing calls the entry
    point with [1; 5]. *)
Lemma SetCurrParam_then_CallFunction_witness :
  exists c' w' r w'',
    CallFunctionObject.SetCurrParam (call_ab 1) (Some 5%positive) world_ab_call
    = Returns c' w'
    /\ CallFunctionObject.CallFunction false c' w' = Returns r w''
    /\ invocations w''
       = [[Some (numerical_Portion porINTEGER 1);
           Some (numerical_Portion porINTEGER 5)]].
Proof.
  destruct (SetCurrParam_then_CallFunction false world_ab_call (call_ab 1) sig_ab
              5 (numerical_Portion porINTEGER 5) (call_ab_owns 1))
    as (c' & w' & r & w'' & Hbind & Hcall & Htrace & _).
  - simpl. lia.
  - reflexivity.
  - intros Hin. cbn in Hin.
    repeat (apply elem_of_cons in Hin as [Hin | Hin]; [discriminate|]).
    now apply elem_of_nil in Hin.
  - intros j Hj Hslot. apply lookup_lt_Some in Hslot as Hlt. cbn in Hlt, Hj.
    destruct j as [|[|j]]; try lia. discriminate.
  - exists c', w', r, w''. split; [exact Hbind|]. split; [exact Hcall|].
    rewrite Htrace. reflexivity.
Defined.
